(** * Application bootstrap of the consulting platform ([src/app.js])

    A shallow embedding of the [Application] class: the CORS origin
    predicate, the middleware pipeline that [setupMiddleware] assembles,
    the body-parsing stages, the utility routes of [setupRoutes], and the
    [start] / [stop] lifecycle with its connection set.

    Conventions.
    - A JavaScript string is the list of its UTF-16 code units
      ([jsstring]); [String.prototype.trim] and the regular expressions of
      the source are defined on code units, as ECMAScript does.
    - A configuration field is an [option] exactly when every read of it
      in the source goes through a truthiness test or an [||] fallback.
    - Calls into collaborators that are not part of this module (the
      datastore, the authentication bootstrap, response handles) are
      events of a trace; whether such a call throws is read from an
      explicit oracle. *)

From Stdlib Require Import List Bool Arith NArith ZArith Lia String Ascii.
From Stdlib Require Import Floats.
Import ListNotations.

Set Implicit Arguments.

(* ================================================================== *)
(** * Part I: definitions *)
(* ================================================================== *)

(** ** JavaScript strings *)

Module JS.

Definition code_unit := N.
Definition jsstring := list code_unit.

(** A source literal (ASCII only in this module) as a [jsstring]. *)
Definition js (s : string) : jsstring :=
  List.map N_of_ascii (list_ascii_of_string s).

Arguments js s : simpl never.

Definition code_unit_eqb : code_unit -> code_unit -> bool := N.eqb.

Fixpoint jsstring_eqb (a b : jsstring) : bool :=
  match a, b with
  | [], [] => true
  | x :: a', y :: b' => code_unit_eqb x y && jsstring_eqb a' b'
  | _, _ => false
  end.

(** ECMAScript [WhiteSpace] and [LineTerminator] code points, the
    characters [trim] strips: TAB, LF, VT, FF, CR, SP, NBSP, U+1680,
    U+2000..U+200A, LS, PS, U+202F, U+205F, U+3000 and U+FEFF. *)
Definition is_js_whitespace (c : code_unit) : bool :=
  ((9 <=? c) && (c <=? 13) || (c =? 32) || (c =? 160) || (c =? 5760)
   || ((8192 <=? c) && (c <=? 8202)) || (c =? 8232) || (c =? 8233)
   || (c =? 8239) || (c =? 8287) || (c =? 12288) || (c =? 65279))%N.

Fixpoint trimStart (s : jsstring) : jsstring :=
  match s with
  | c :: s' => if is_js_whitespace c then trimStart s' else s
  | [] => []
  end.

Definition trimEnd (s : jsstring) : jsstring :=
  rev (trimStart (rev s)).

(** [s.trim()] *)
Definition trim (s : jsstring) : jsstring := trimEnd (trimStart s).

(** [arr.includes(x)] on an array of strings. *)
Definition includes (arr : list jsstring) (x : jsstring) : bool :=
  existsb (jsstring_eqb x) arr.

(** [ToBoolean] of a string: only the empty string is falsy. *)
Definition truthy_string (s : jsstring) : bool :=
  match s with [] => false | _ :: _ => true end.

(** [ToBoolean] of a possibly undefined string. *)
Definition truthy_opt_string (o : option jsstring) : bool :=
  match o with Some s => truthy_string s | None => false end.

(** [a || d] where [a] is a possibly undefined string. *)
Definition or_default (a : option jsstring) (d : jsstring) : jsstring :=
  match a with
  | Some s => if truthy_string s then s else d
  | None => d
  end.

(** [a || d] where [a] is a string. *)
Definition or_else (a d : jsstring) : jsstring :=
  if truthy_string a then a else d.

(** [ToBoolean] of a number: [+0], [-0] and [NaN] are falsy. *)
Definition truthy_number (x : float) : bool :=
  negb (PrimFloat.eqb x 0) && PrimFloat.eqb x x.

(** Decimal digits of a natural number, as [String(n)] prints an
    integer below 1e21. *)
Fixpoint digits_fuel (fuel : nat) (n : N) (acc : jsstring) : jsstring :=
  match fuel with
  | O => acc
  | S fuel' =>
      let acc' := (48 + n mod 10)%N :: acc in
      if (n <? 10)%N then acc' else digits_fuel fuel' (n / 10)%N acc'
  end.

Definition number_to_string (n : N) : jsstring :=
  digits_fuel (S (N.to_nat (N.log2 n))) n [].

(** The number a string of decimal digits stands for. *)
Definition decimal_value (s : jsstring) : N :=
  List.fold_left (fun v c => (10 * v + (c - 48))%N) s 0%N.

End JS.

(** ** The regular expressions of the CORS fallback *)

Module Regex.
Import JS.

(** The fragment of the regular-expression syntax the source uses:
    literal text, concatenation, [r?] and [c+] for a character class
    [c]. Every expression is anchored with [^] and [$]. *)
Inductive regex : Type :=
| Lit (s : jsstring)
| Cat (r1 r2 : regex)
| Opt (r : regex)
| Plus (cls : code_unit -> bool).

(** [\d]: the ASCII digits. *)
Definition digit (c : code_unit) : bool := ((48 <=? c) && (c <=? 57))%N.

Fixpoint strip_prefix (p s : jsstring) : option jsstring :=
  match p, s with
  | [], _ => Some s
  | x :: p', y :: s' => if code_unit_eqb x y then strip_prefix p' s' else None
  | _ :: _, [] => None
  end.

(** Zero or more characters of [cls], longest first, then the
    continuation (the backtracking order of the engine). *)
Fixpoint many (cls : code_unit -> bool) (s : jsstring)
         (k : jsstring -> bool) : bool :=
  match s with
  | c :: s' => (cls c && many cls s' k) || k s
  | [] => k []
  end.

Fixpoint run (r : regex) (s : jsstring) (k : jsstring -> bool) : bool :=
  match r with
  | Lit l => match strip_prefix l s with Some rest => k rest | None => false end
  | Cat r1 r2 => run r1 s (fun rest => run r2 rest k)
  | Opt r' => run r' s k || k s
  | Plus cls =>
      match s with
      | c :: s' => cls c && many cls s' k
      | [] => false
      end
  end.

Definition at_end (s : jsstring) : bool :=
  match s with [] => true | _ :: _ => false end.

(** [/^r$/.test(s)] *)
Definition test (r : regex) (s : jsstring) : bool := run r s at_end.

(** [(:\d+)?] *)
Definition port_suffix : regex := Opt (Cat (Lit (js ":")) (Plus digit)).

(** [https?:\/\/] *)
Definition scheme_prefix : regex :=
  Cat (Lit (js "http")) (Cat (Opt (Lit (js "s"))) (Lit (js "://"))).

(** [/^https?:\/\/localhost(:\d+)?$/] *)
Definition re_localhost : regex :=
  Cat scheme_prefix (Cat (Lit (js "localhost")) port_suffix).

(** [/^https?:\/\/127\.0\.0\.1(:\d+)?$/] *)
Definition re_loopback : regex :=
  Cat scheme_prefix (Cat (Lit (js "127.0.0.1")) port_suffix).

(** [/^https?:\/\/10\.0\.0\.\d+(:\d+)?$/] *)
Definition re_lan : regex :=
  Cat scheme_prefix
      (Cat (Lit (js "10.0.0.")) (Cat (Plus digit) port_suffix)).

(** The language of a regular expression. *)
Fixpoint denotes (r : regex) (s : jsstring) : Prop :=
  match r with
  | Lit l => s = l
  | Cat r1 r2 => exists s1 s2, s = s1 ++ s2 /\ denotes r1 s1 /\ denotes r2 s2
  | Opt r' => s = [] \/ denotes r' s
  | Plus cls => s <> [] /\ Forall (fun c => cls c = true) s
  end.

End Regex.

(** ** The configuration snapshot ([./shared/config/config]) *)

Module Config.
Import JS.

(** [config.security.cors.origins]: an array of origins, a single
    origin, or nothing. *)
Inductive origins_setting : Type :=
| OriginsArray (l : list jsstring)
| OriginsSingle (s : jsstring)
| OriginsUndefined.

(** [config.app.uploadLimit]: a byte count or a size such as ['10mb']. *)
Inductive limit_setting : Type :=
| LimitBytes (n : N)
| LimitText (s : jsstring).

Record app_config : Type := {
  env : jsstring;
  name : jsstring;
  version : option jsstring;
  url : jsstring;
  apiVersion : option jsstring;
  apiPrefix : option jsstring;
  uploadLimit : option limit_setting
}.

Record cors_config : Type := {
  cors_enabled : bool;
  origins : origins_setting
}.

Record security_config : Type := {
  helmet_enabled : bool;
  cors : cors_config;
  sanitize_enabled : bool
}.

Record session_config : Type := {
  store : jsstring;
  idleTimeout : option float
}.

Record config : Type := {
  app : app_config;
  security : security_config;
  logging_enabled : bool;
  session : session_config
}.

Definition is_production (c : config) : bool :=
  jsstring_eqb (env (app c)) (js "production").

Definition is_development (c : config) : bool :=
  jsstring_eqb (env (app c)) (js "development").

End Config.

(** ** CORS negotiation: the [origin] callback given to [cors] *)

Module Cors.
Import JS Regex Config.

(** What the predicate hands to its callback:
    [callback(null, true)] or [callback(new Error(msg))]. *)
Inductive verdict : Type :=
| Allowed
| Failed (message : jsstring).

Definition cors_error : jsstring := js "Not allowed by CORS".

(** [Array.isArray(origins) ? origins : [origins].filter(Boolean)] *)
Definition allowedOrigins (o : origins_setting) : list jsstring :=
  match o with
  | OriginsArray l => l
  | OriginsSingle s => List.filter truthy_string [s]
  | OriginsUndefined => []
  end.

Definition trimmedAllowedOrigins (o : origins_setting) : list jsstring :=
  List.map trim (allowedOrigins o).

Definition isLocalhost (trimmedIncomingOrigin : jsstring) : bool :=
  test re_localhost trimmedIncomingOrigin
  || test re_loopback trimmedIncomingOrigin
  || test re_lan trimmedIncomingOrigin.

(** The [origin] option of the [cors] middleware; [None] is a request
    without an [Origin] header. *)
Definition origin_callback (c : config) (origin : option jsstring) : verdict :=
  if negb (truthy_opt_string origin) then Allowed
  else
    match origin with
    | None => Allowed
    | Some o =>
        let trimmedIncomingOrigin := trim o in
        if includes (trimmedAllowedOrigins (origins (cors (security c))))
                    trimmedIncomingOrigin
        then Allowed
        else if is_development c && isLocalhost trimmedIncomingOrigin
        then Allowed
        else Failed cors_error
    end.

(** *** Specification side: which origins count as local

    An origin is local when it is [http] or [https], to [localhost],
    [127.0.0.1] or [10.0.0.<digits>], with an optional [:<digits>]
    port. *)
Definition digits1 (d : jsstring) : Prop :=
  d <> [] /\ Forall (fun c => digit c = true) d.

Definition local_scheme (s : jsstring) : Prop :=
  s = js "http" \/ s = js "https".

Definition local_host (h : jsstring) : Prop :=
  h = js "localhost" \/ h = js "127.0.0.1"
  \/ exists d, digits1 d /\ h = js "10.0.0." ++ d.

Definition any_port (p : jsstring) : Prop :=
  p = [] \/ exists d, digits1 d /\ p = js ":" ++ d.

Definition local_origin (s : jsstring) : Prop :=
  exists scheme host port,
    local_scheme scheme /\ local_host host /\ any_port port
    /\ s = scheme ++ js "://" ++ host ++ port.

(** An absent origin: no header, or an empty one ([!origin]). *)
Definition absent (origin : option jsstring) : Prop :=
  origin = None \/ origin = Some [].

(** [r] is a member of the configured origins [O], each member trimmed:
    a configured array stands for its entries, a single configured
    origin for the list of that one origin, and an empty or missing
    setting for the empty list. *)
Definition listed (O : origins_setting) (r : jsstring) : Prop :=
  match O with
  | OriginsArray members => exists member, In member members /\ trim member = r
  | OriginsSingle member => member <> [] /\ trim member = r
  | OriginsUndefined => False
  end.

(** The origins the specification lets through. *)
Definition origin_permitted (c : config) (origin : option jsstring) : Prop :=
  absent origin
  \/ (exists o, origin = Some o
        /\ listed (origins (cors (security c))) (trim o))
  \/ (env (app c) = js "development"
      /\ exists o, origin = Some o /\ local_origin (trim o)).

End Cors.


(** ** Buffers: [buf.toString('utf8')] *)

Module Buffer.
Import JS.

(** U+FFFD, which replaces every ill-formed sequence. *)
Definition replacement : code_unit := 65533%N.

(** A code point as one code unit or as a surrogate pair. *)
Definition encode_utf16 (cp : N) : jsstring :=
  if (cp <? 65536)%N then [cp]
  else let v := (cp - 65536)%N in
       [(55296 + v / 1024)%N; (56320 + v mod 1024)%N].

(** The decoder is idle, or inside a multi-byte sequence with the bits
    read so far, the number of continuation bytes still due, and the
    range the next byte must fall in. *)
Inductive decoder : Type :=
| Idle
| Pending (cp : N) (due : nat) (lower upper : N).

Definition lead (b : N) : jsstring * decoder :=
  if (b <=? 127)%N then ([b], Idle)
  else if ((194 <=? b) && (b <=? 223))%N then
    ([], Pending (N.land b 31) 1 128 191)
  else if ((224 <=? b) && (b <=? 239))%N then
    ([], Pending (N.land b 15) 2
                 (if (b =? 224)%N then 160 else 128)%N
                 (if (b =? 237)%N then 159 else 191)%N)
  else if ((240 <=? b) && (b <=? 244))%N then
    ([], Pending (N.land b 7) 3
                 (if (b =? 240)%N then 144 else 128)%N
                 (if (b =? 244)%N then 143 else 191)%N)
  else ([replacement], Idle).

Definition step (st : decoder) (b : N) : jsstring * decoder :=
  match st with
  | Idle => lead b
  | Pending cp due lower upper =>
      if ((lower <=? b) && (b <=? upper))%N then
        let cp' := (cp * 64 + N.land b 63)%N in
        match due with
        | S (S due') => ([], Pending cp' (S due') 128 191)
        | _ => (encode_utf16 cp', Idle)
        end
      else
        let '(out, st') := lead b in (replacement :: out, st')
  end.

Fixpoint decode (st : decoder) (bytes : list Byte.byte) : jsstring :=
  match bytes with
  | [] => match st with Idle => [] | Pending _ _ _ _ => [replacement] end
  | b :: rest =>
      let '(out, st') := step st (Byte.to_N b) in out ++ decode st' rest
  end.

Definition toString_utf8 (buf : list Byte.byte) : jsstring := decode Idle buf.

End Buffer.

(** ** Requests, responses and errors *)

Module Http.
Import JS.

Inductive method : Type := GET | HEAD | POST | PUT | PATCH | DELETE | OPTIONS.

(** Modelled from the spec: the [AppError] class of
    [./shared/utils/app-error] is not among the sources; an [AppError]
    carries the message and the HTTP status it was built with. The other
    errors that are thrown or travel through [next(err)] are plain
    [Error]s and the [HttpError]s of the body parsers. *)
Inductive js_error : Type :=
| Error (message : jsstring)
| AppError (message : jsstring) (statusCode : N)
| HttpError (statusCode : N) (type : jsstring).

Definition error_message (e : js_error) : jsstring :=
  match e with
  | Error m => m
  | AppError m _ => m
  | HttpError _ t => t
  end.

(** What [type-is] makes of the [Content-Type] header. *)
Inductive media : Type := MediaJson | MediaUrlencoded | MediaOther.

(** [req.body]: the empty object, [JSON.parse(text)] or the parsed
    form fields of [text]. *)
Inductive parsed_body : Type :=
| EmptyObject
| ParsedJson (text : list Byte.byte)
| ParsedForm (text : list Byte.byte).

(** Response handles are compared by identity. *)
Definition handle := nat.

Record request : Type := {
  req_method : method;
  originalUrl : jsstring;
  path : jsstring;
  origin : option jsstring;
  content : media;
  has_body : bool;
  stream : list Byte.byte;
  rawBody : option jsstring;
  body : option parsed_body;
  body_read : bool;
  res : handle
}.

Definition set_rawBody (r : request) (s : jsstring) : request :=
  {| req_method := req_method r; originalUrl := originalUrl r; path := path r;
     origin := origin r; content := content r; has_body := has_body r;
     stream := stream r; rawBody := Some s; body := body r;
     body_read := body_read r; res := res r |}.

Definition set_body (r : request) (b : parsed_body) : request :=
  {| req_method := req_method r; originalUrl := originalUrl r; path := path r;
     origin := origin r; content := content r; has_body := has_body r;
     stream := stream r; rawBody := rawBody r; body := Some b;
     body_read := body_read r; res := res r |}.

Definition set_body_read (r : request) : request :=
  {| req_method := req_method r; originalUrl := originalUrl r; path := path r;
     origin := origin r; content := content r; has_body := has_body r;
     stream := stream r; rawBody := rawBody r; body := body r;
     body_read := true; res := res r |}.

(** What a layer does with a request: pass it on ([next()]), fail it
    ([next(err)]), or answer it. *)
Inductive layer_result (response : Type) : Type :=
| Next (r : request)
| NextError (e : js_error) (r : request)
| Respond (resp : response).

Arguments Next {response} r.
Arguments NextError {response} e r.
Arguments Respond {response} resp.

End Http.

(** ** Body parsing: [express.json] and [express.urlencoded] *)

Module BodyParser.
Import JS Config Http.

(** The [verify] option: called with the raw buffer before parsing. *)
Definition verify_callback := request -> list Byte.byte -> request.

(** [(req, res, buf) => { req.rawBody = buf.toString('utf8'); }] *)
Definition capture_raw_body : verify_callback :=
  fun req buf => set_rawBody req (Buffer.toString_utf8 buf).

(** [config.app.uploadLimit || '10mb'] *)
Definition upload_limit (c : config) : limit_setting :=
  match uploadLimit (app c) with
  | Some (LimitBytes n) => if (n =? 0)%N then LimitText (js "10mb") else LimitBytes n
  | Some (LimitText t) => if truthy_string t then LimitText t else LimitText (js "10mb")
  | None => LimitText (js "10mb")
  end.

Section WithLibrary.
(** The [bytes] package reading a size, and whether the JSON and the
    form parser accept a text. *)
Variable bytes_parse : jsstring -> option N.
Variable json_valid : list Byte.byte -> bool.
Variable form_valid : list Byte.byte -> bool.

(** The ceiling in bytes; [None] is no ceiling. *)
Definition ceiling (l : limit_setting) : option N :=
  match l with
  | LimitBytes n => Some n
  | LimitText t => bytes_parse t
  end.

Definition within (l : limit_setting) (buf : list Byte.byte) : bool :=
  match ceiling l with
  | Some n => (N.of_nat (List.length buf) <=? n)%N
  | None => true
  end.

(** [req.body = req.body || {}] *)
Definition default_body (req : request) : request :=
  match body req with
  | Some _ => req
  | None => set_body req EmptyObject
  end.

(** The shared [read] of the parsers: flag the request, read the
    stream up to the ceiling, call [verify], parse. *)
Definition read {response : Type} (l : limit_setting)
           (verify : option verify_callback)
           (valid : list Byte.byte -> bool)
           (parsed : list Byte.byte -> parsed_body)
           (req : request) : layer_result response :=
  let req := set_body_read req in
  let buf := stream req in
  if negb (within l buf)
  then NextError (HttpError 413 (js "entity.too.large")) req
  else
    let req := match verify with Some v => v req buf | None => req end in
    if valid buf
    then Next (set_body req (parsed buf))
    else NextError (HttpError 400 (js "entity.parse.failed")) req.

Definition parser {response : Type} (accepts : media -> bool)
           (l : limit_setting) (verify : option verify_callback)
           (valid : list Byte.byte -> bool)
           (parsed : list Byte.byte -> parsed_body)
           (req : request) : layer_result response :=
  if body_read req then Next req
  else
    let req := default_body req in
    if negb (has_body req) then Next req
    else if negb (accepts (content req)) then Next req
    else read l verify valid parsed req.

Definition is_json (m : media) : bool :=
  match m with MediaJson => true | _ => false end.

Definition is_urlencoded (m : media) : bool :=
  match m with MediaUrlencoded => true | _ => false end.

(** [express.json({ limit, verify })] *)
Definition json {response : Type} (l : limit_setting)
           (verify : option verify_callback) : request -> layer_result response :=
  parser is_json l verify json_valid ParsedJson.

(** [express.urlencoded({ extended: true, limit })] *)
Definition urlencoded {response : Type} (l : limit_setting)
  : request -> layer_result response :=
  parser is_urlencoded l None form_valid ParsedForm.

End WithLibrary.

End BodyParser.

(** ** The middleware pipeline and the route table *)

Module Pipeline.
Import JS Config Cors Http BodyParser.

(** What [app.use], [app.get] and [app.all] register, with those of the
    options the source passes that the properties below depend on. *)
Inductive stage : Type :=
| Helmet (defaultContentSecurityPolicy : bool)
| CorsMw (origin : option jsstring -> verdict)
| JsonBody (limit : limit_setting) (verify : option verify_callback)
| UrlencodedBody (limit : limit_setting)
| MongoSanitize
| CookieParser
| Compression
| MethodOverride (getter : jsstring)
| Static (mount dir : jsstring) (maxAge : option jsstring)
| HttpLogger
| Morgan
| SessionMw (useDatabase secure : bool)
| Flash
| FlashLocals
| SessionSecurity
| SessionActivity
| IdleSessionTimeout (minutes : float)
| TrackConnections
| Passport
| ViewLocals
| ApiRouter (mount : jsstring) (resources : list jsstring)
| Docs
| HealthRoute
| SessionCheckRoute
| SessionDebugRoute
| RootRoute
| CatchAll
| NotFoundHandler
| ErrorHandler.

Inductive level : Type := info | warn | error.

(** One statement of a setup method. *)
Inductive step : Type :=
| Use (s : stage)
| TrustProxy
| Say (l : level) (message : jsstring).

Definition when {A : Type} (b : bool) (l : list A) : list A :=
  if b then l else [].

(** [setupMiddleware], statement by statement. *)
Definition middleware_plan (c : config) : list step :=
  when (is_production c) [TrustProxy]
  ++ when (helmet_enabled (security c)) [Use (Helmet (is_production c))]
  ++ (if cors_enabled (cors (security c))
      then [Say info (js "CORS Configuration Debug");
            Use (CorsMw (origin_callback c))]
      else [Say warn (js "CORS is disabled - this may cause issues with frontend communication")])
  ++ [Use (JsonBody (upload_limit c) (Some capture_raw_body));
      Use (UrlencodedBody (upload_limit c))]
  ++ when (sanitize_enabled (security c)) [Use MongoSanitize]
  ++ [Use CookieParser;
      Use Compression;
      Use (MethodOverride (js "_method"));
      Use (MethodOverride (js "X-HTTP-Method-Override"));
      Use (Static (js "/uploads") (js "uploads")
                  (if is_production c then Some (js "7d") else None));
      Use (Static (js "/public") (js "public")
                  (if is_production c then Some (js "30d") else None))]
  ++ when (logging_enabled c)
          (Use HttpLogger :: when (is_development c) [Use Morgan])
  ++ [Use (SessionMw (jsstring_eqb (store (session c)) (js "mongodb"))
                     (is_production c));
      Use Flash;
      Use FlashLocals;
      Use SessionSecurity;
      Use SessionActivity]
  ++ match idleTimeout (session c) with
     | Some ms => when (truthy_number ms) [Use (IdleSessionTimeout (ms / 60000)%float)]
     | None => []
     end
  ++ [Use TrackConnections].

Definition api_resources : list jsstring :=
  [js "/auth"; js "/users"; js "/teams"; js "/departments";
   js "/organizations"; js "/projects"; js "/services"; js "/events";
   js "/case-studies"; js "/blog"; js "/newsletter"; js "/contact"].

Definition apiVersion_of (c : config) : jsstring :=
  or_default (apiVersion (app c)) (js "v1").

Definition apiPrefix_of (c : config) : jsstring :=
  or_default (apiPrefix (app c)) (js "/api").

(** [`${apiPrefix}/${apiVersion}`] *)
Definition api_mount (c : config) : jsstring :=
  apiPrefix_of c ++ js "/" ++ apiVersion_of c.

(** [setupRoutes], statement by statement. *)
Definition routes_plan (c : config) : list step :=
  [Use (ApiRouter (api_mount c) api_resources);
   Use Docs;
   Use HealthRoute;
   Use SessionCheckRoute]
  ++ when (is_development c) [Use SessionDebugRoute]
  ++ [Use RootRoute;
      Use CatchAll].

(** [setupErrorHandling] *)
Definition error_plan : list step :=
  [Use NotFoundHandler; Use ErrorHandler].

Fixpoint stages_of (p : list step) : list stage :=
  match p with
  | [] => []
  | Use s :: p' => s :: stages_of p'
  | _ :: p' => stages_of p'
  end.

(** The stages [setupMiddleware] installs, in order. *)
Definition middleware_stages (c : config) : list stage :=
  stages_of (middleware_plan c).

Definition route_stages (c : config) : list stage :=
  stages_of (routes_plan c).

(** The two body-parsing stages, as [setupMiddleware] installs them. *)
Definition body_stages (c : config) : list stage :=
  [JsonBody (upload_limit c) (Some capture_raw_body);
   UrlencodedBody (upload_limit c)].

Definition is_route (s : stage) : bool :=
  match s with
  | ApiRouter _ _ | Docs | HealthRoute | SessionCheckRoute
  | SessionDebugRoute | RootRoute | CatchAll => true
  | _ => false
  end.

(** The origin check of a pipeline: every installed CORS stage must
    let the origin through; [None] when they all do, the error of the
    first one that does not otherwise. *)
Fixpoint origin_check (stages : list stage) (o : option jsstring)
  : option jsstring :=
  match stages with
  | [] => None
  | CorsMw f :: rest =>
      match f o with
      | Allowed => origin_check rest o
      | Failed message => Some message
      end
  | _ :: rest => origin_check rest o
  end.

End Pipeline.

(** ** Effects: the application instance, traces and exceptions *)

Module Effects.
Import JS Http Pipeline.

(** The [Application] instance: the Express stack of [this.app], its
    [trust proxy] setting, [this.connections] (a [Set], kept in
    insertion order), [this.isShuttingDown], and the response handles
    that carry the tracker's [finish] listener. *)
Record application : Type := {
  stack : list stage;
  trust_proxy : bool;
  connections : list handle;
  isShuttingDown : bool;
  finish_listeners : list handle
}.

(** [new Application()] *)
Definition new_application : application :=
  {| stack := []; trust_proxy := false; connections := [];
     isShuttingDown := false; finish_listeners := [] |}.

Inductive event : Type :=
| Log (l : level) (message : jsstring) (detail : option jsstring)
| AppSetTrustProxy
| AppUse (s : stage)
| DatabaseConnect
| DatabaseClose
| PassportInitialize
| ConnectionEnd (r : handle).

Inductive outcome (A : Type) : Type :=
| Returned (a : A)
| Threw (e : js_error).

Arguments Returned {A} a.
Arguments Threw {A} e.

(** A method of the instance: it reads and updates the instance, emits
    events, and returns or throws. *)
Definition M (A : Type) : Type :=
  application -> outcome A * application * list event.

Definition ret {A : Type} (a : A) : M A :=
  fun app => (Returned a, app, []).

Definition throw {A : Type} (e : js_error) : M A :=
  fun app => (Threw e, app, []).

Definition bind {A B : Type} (m : M A) (k : A -> M B) : M B :=
  fun app =>
    match m app with
    | (Returned a, app1, t1) =>
        match k a app1 with
        | (o, app2, t2) => (o, app2, t1 ++ t2)
        end
    | (Threw e, app1, t1) => (Threw e, app1, t1)
    end.

(** [try { m } catch (e) { h e }] *)
Definition try_catch {A : Type} (m : M A) (h : js_error -> M A) : M A :=
  fun app =>
    match m app with
    | (Returned a, app1, t1) => (Returned a, app1, t1)
    | (Threw e, app1, t1) =>
        match h e app1 with
        | (o, app2, t2) => (o, app2, t1 ++ t2)
        end
    end.

Definition emit (ev : event) : M unit :=
  fun app => (Returned tt, app, [ev]).

Definition modify (f : application -> application) : M unit :=
  fun app => (Returned tt, f app, []).

(** A call into a collaborator: the event, then the exception when the
    oracle has one. *)
Definition call (ev : event) (fails : option js_error) : M unit :=
  fun app =>
    match fails with
    | Some e => (Threw e, app, [ev])
    | None => (Returned tt, app, [ev])
    end.

Definition log (l : level) (message : string) : M unit :=
  emit (Log l (js message) None).

Definition log_error (message : string) (e : js_error) : M unit :=
  emit (Log error (js message) (Some (error_message e))).

(** Which calls into collaborators throw during one [start] or [stop]. *)
Record world : Type := {
  connect_fails : option js_error;
  close_fails : option js_error;
  passport_fails : option js_error;
  build_fails : stage -> option js_error;
  end_fails : handle -> option js_error
}.

(** A world in which nothing fails. *)
Definition calm : world :=
  {| connect_fails := None; close_fails := None; passport_fails := None;
     build_fails := fun _ => None; end_fails := fun _ => None |}.

End Effects.

Declare Scope effect_scope.
Delimit Scope effect_scope with effect.
Notation "x <- m ;; k" := (Effects.bind m (fun x => k))
  (at level 61, m at next level, right associativity) : effect_scope.
Notation "m ;; k" := (Effects.bind m (fun _ => k))
  (at level 61, right associativity) : effect_scope.

(** ** The lifecycle controller: [initialize], [start], [stop] *)

Module Lifecycle.
Import JS Config Http Pipeline Effects.
Local Open Scope effect_scope.

Definition push_stage (s : stage) (a : application) : application :=
  {| stack := stack a ++ [s]; trust_proxy := trust_proxy a;
     connections := connections a; isShuttingDown := isShuttingDown a;
     finish_listeners := finish_listeners a |}.

Definition set_trust_proxy (a : application) : application :=
  {| stack := stack a; trust_proxy := true;
     connections := connections a; isShuttingDown := isShuttingDown a;
     finish_listeners := finish_listeners a |}.

Definition set_shutting_down (a : application) : application :=
  {| stack := stack a; trust_proxy := trust_proxy a;
     connections := connections a; isShuttingDown := true;
     finish_listeners := finish_listeners a |}.

Definition set_connections (l : list handle) (a : application) : application :=
  {| stack := stack a; trust_proxy := trust_proxy a;
     connections := l; isShuttingDown := isShuttingDown a;
     finish_listeners := finish_listeners a |}.

Definition add_finish_listener (r : handle) (a : application) : application :=
  {| stack := stack a; trust_proxy := trust_proxy a;
     connections := connections a; isShuttingDown := isShuttingDown a;
     finish_listeners := r :: finish_listeners a |}.

(** [this.app.use(...)]: the middleware is built by its factory, which
    may throw, and then registered. *)
Definition app_use (w : world) (s : stage) : M unit :=
  match build_fails w s with
  | Some e => throw e
  | None => emit (AppUse s) ;; modify (push_stage s)
  end.

Definition run_step (w : world) (st : step) : M unit :=
  match st with
  | Use s => app_use w s
  | TrustProxy => emit AppSetTrustProxy ;; modify set_trust_proxy
  | Say l message => emit (Log l message None)
  end.

Fixpoint run_plan (w : world) (p : list step) : M unit :=
  match p with
  | [] => ret tt
  | st :: p' => run_step w st ;; run_plan w p'
  end.

Definition setupMiddleware (c : config) (w : world) : M unit :=
  run_plan w (middleware_plan c).

(** Modelled from the spec: [passportConfig.initialize]
    ([./shared/security/passport/passport-config]) is not among the
    sources; it may fail, and on success it has registered the
    authentication strategies on the application (the [Passport]
    stage). *)
Definition passport_initialize (w : world) : M unit :=
  call PassportInitialize (passport_fails w) ;;
  emit (AppUse Passport) ;;
  modify (push_stage Passport).

Definition setupPassport (w : world) : M unit :=
  try_catch
    (passport_initialize w ;;
     log info "Authentication strategies initialized successfully")
    (fun e =>
       log_error "Failed to configure authentication strategies" e ;;
       throw e) ;;
  app_use w ViewLocals.

Definition setupRoutes (c : config) (w : world) : M unit :=
  run_plan w (routes_plan c).

Definition setupErrorHandling (w : world) : M unit :=
  run_plan w error_plan.

Definition initialize (c : config) (w : world) : M unit :=
  setupMiddleware c w ;;
  setupPassport w ;;
  setupRoutes c w ;;
  setupErrorHandling w.

Definition start (c : config) (w : world) : M unit :=
  try_catch
    (call DatabaseConnect (connect_fails w) ;;
     log info "Database connected successfully" ;;
     initialize c w ;;
     log info "Application initialized successfully")
    (fun e =>
       log_error "Failed to start application" e ;;
       throw e).

(** *** Reference runs

    What a plan emits and installs when no factory throws, and the trace
    of a [start] in which nothing fails. *)

Definition event_of (st : step) : event :=
  match st with
  | Use s => AppUse s
  | TrustProxy => AppSetTrustProxy
  | Say l message => Log l message None
  end.

Definition trace_of (p : list step) : list event := List.map event_of p.

Definition install_step (st : step) (a : application) : application :=
  match st with
  | Use s => push_stage s a
  | TrustProxy => set_trust_proxy a
  | Say _ _ => a
  end.

Definition install (p : list step) (a : application) : application :=
  List.fold_left (fun acc st => install_step st acc) p a.

Definition passport_trace : list event :=
  [PassportInitialize;
   AppUse Passport;
   Log info (js "Authentication strategies initialized successfully") None;
   AppUse ViewLocals].

Definition undisturbed (c : config) : list event :=
  [DatabaseConnect; Log info (js "Database connected successfully") None]
  ++ trace_of (middleware_plan c)
  ++ passport_trace
  ++ trace_of (routes_plan c)
  ++ trace_of error_plan
  ++ [Log info (js "Application initialized successfully") None].

Definition is_log (e : event) : bool :=
  match e with Log _ _ _ => true | _ => false end.

Definition is_route_use (e : event) : bool :=
  match e with AppUse s => is_route s | _ => false end.

(** [for (const connection of this.connections) connection.end()] *)
Fixpoint end_all (w : world) (l : list handle) : M unit :=
  match l with
  | [] => ret tt
  | r :: l' => call (ConnectionEnd r) (end_fails w r) ;; end_all w l'
  end.

Definition stop (w : world) : M unit :=
  fun app =>
    if isShuttingDown app
    then log warn "Application is already shutting down" app
    else
      (modify set_shutting_down ;;
       log info "Stopping application gracefully" ;;
       try_catch
         (end_all w (connections app) ;;
          call DatabaseClose (close_fails w) ;;
          log info "Database connection closed" ;;
          log info "Application stopped successfully")
         (fun e =>
            log_error "Error during application shutdown" e ;;
            throw e)) app.

(** *** The connection set *)

(** [Set.prototype.add] *)
Definition set_add (r : handle) (l : list handle) : list handle :=
  if existsb (Nat.eqb r) l then l else l ++ [r].

(** [Set.prototype.delete] *)
Definition set_delete (r : handle) (l : list handle) : list handle :=
  List.filter (fun x => negb (Nat.eqb r x)) l.

(** The connection-tracking stage on a request whose response handle is
    [r]: [this.connections.add(res); res.on('finish', ...)]. *)
Definition track (r : handle) : M unit :=
  modify (fun a => add_finish_listener r (set_connections (set_add r (connections a)) a)).

(** The listener: [this.connections.delete(res)]. *)
Definition on_finish (r : handle) : M unit :=
  modify (fun a => set_connections (set_delete r (connections a)) a).

(** The response [r] emits [finish]: every listener the tracker put on
    it runs. *)
Fixpoint fire (r : handle) (listeners : list handle) : M unit :=
  match listeners with
  | [] => ret tt
  | r' :: rest =>
      (if Nat.eqb r r' then on_finish r else ret tt) ;; fire r rest
  end.

Definition finish (r : handle) : M unit :=
  fun app => fire r (finish_listeners app) app.

(** What happens to the instance over its life. A request starts when
    it reaches the connection-tracking stage and finishes when its
    response emits [finish]. *)
Inductive action : Type :=
| CallStart (w : world)
| CallStop (w : world)
| RequestStart (r : handle)
| RequestFinish (r : handle).

Definition perform (c : config) (a : action) : M unit :=
  match a with
  | CallStart w => start c w
  | CallStop w => stop w
  | RequestStart r => track r
  | RequestFinish r => finish r
  end.

(** The instance and the trace after a sequence of actions; an
    exception of [start] or [stop] goes to its caller and the instance
    lives on. *)
Fixpoint run (c : config) (acts : list action) (app : application)
  : application * list event :=
  match acts with
  | [] => (app, [])
  | a :: rest =>
      match perform c a app with
      | (_, app1, t1) =>
          match run c rest app1 with
          | (app2, t2) => (app2, t1 ++ t2)
          end
      end
  end.

(** The connection set and the listeners after one action. *)
Definition next_connections (a : action) (app : application) : list handle :=
  match a with
  | RequestStart r => set_add r (connections app)
  | RequestFinish r =>
      if existsb (Nat.eqb r) (finish_listeners app)
      then set_delete r (connections app)
      else connections app
  | _ => connections app
  end.

Definition next_listeners (a : action) (app : application) : list handle :=
  match a with
  | RequestStart r => r :: finish_listeners app
  | _ => finish_listeners app
  end.

(** *** Specification side: requests in flight *)


Definition is_finish_of (r : handle) (a : action) : bool :=
  match a with RequestFinish r' => Nat.eqb r r' | _ => false end.

(** No response [r] finishes during [acts]. *)
Definition no_finish (r : handle) (acts : list action) : bool :=
  forallb (fun a => negb (is_finish_of r a)) acts.


Definition is_request_start (a : action) : bool :=
  match a with RequestStart _ => true | _ => false end.

Definition is_request_finish (a : action) : bool :=
  match a with RequestFinish _ => true | _ => false end.

Definition started (acts : list action) : nat :=
  List.length (List.filter is_request_start acts).

Definition finished (acts : list action) : nat :=
  List.length (List.filter is_request_finish acts).

(** Every request has a response handle of its own, and a response
    finishes once, after its request started. *)
Fixpoint well_formed (seen : list handle) (open : list handle)
         (acts : list action) : Prop :=
  match acts with
  | [] => True
  | RequestStart r :: rest =>
      ~ In r seen /\ well_formed (r :: seen) (r :: open) rest
  | RequestFinish r :: rest =>
      In r open /\ well_formed seen (List.remove Nat.eq_dec r open) rest
  | _ :: rest => well_formed seen open rest
  end.

Definition is_end_of (r : handle) (e : event) : bool :=
  match e with ConnectionEnd r' => Nat.eqb r r' | _ => false end.

Definition is_close (e : event) : bool :=
  match e with DatabaseClose => true | _ => false end.

Definition count (p : event -> bool) (t : list event) : nat :=
  List.length (List.filter p t).

(** *** Properties of computations

    A computation follows the trace [T] when it emits exactly [T] if it
    returns and, if it throws, a prefix of [T] followed by log entries
    only. *)
Definition follows (m : M unit) (T : list event) : Prop :=
  forall app,
    match m app with
    | (Returned _, _, tr) => tr = T
    | (Threw _, _, tr) =>
        exists pre suf logs,
          tr = pre ++ logs /\ T = pre ++ suf /\ forallb is_log logs = true
    end.

(** Neither a connection nor the datastore is closed by this event. *)
Definition closes_nothing (e : event) : bool :=
  match e with ConnectionEnd _ | DatabaseClose => false | _ => true end.

(** A computation keeps the connection set, the shutdown flag and the
    listeners, and closes nothing. *)
Definition keeps (m : M unit) : Prop :=
  forall app,
    match m app with
    | (_, app', tr) =>
        connections app' = connections app
        /\ isShuttingDown app' = isShuttingDown app
        /\ finish_listeners app' = finish_listeners app
        /\ forallb closes_nothing tr = true
    end.

End Lifecycle.

(** ** The utility routes and the dispatch of a request *)

Module Routes.
Import JS Config Cors Http BodyParser Pipeline.

(** [Database.getStatus()] *)
Record db_status : Type := {
  ready : bool;
  status : jsstring;
  message : jsstring
}.

(** [process.memoryUsage()], in bytes. *)
Record memory_usage : Type := {
  rss : N;
  heapTotal : N;
  heapUsed : N
}.

(** What a handler reads from the process when it runs:
    [Database.getStatus()], [process.memoryUsage()], [process.uptime()]
    and [new Date().toISOString()]. *)
Record runtime : Type := {
  database : db_status;
  memory : memory_usage;
  uptime : float;
  now : jsstring
}.

(** [Math.round(bytes / 1024 / 1024)]: for a byte count below 2^53 both
    divisions are exact in binary64, and [Math.round] rounds to the
    nearest integer, halves upwards. *)
Definition round_megabytes (bytes : N) : N :=
  ((bytes + 524288) / 1048576)%N.

(** [`${Math.round(bytes / 1024 / 1024)}MB`] *)
Definition megabytes (bytes : N) : jsstring :=
  number_to_string (round_megabytes bytes) ++ js "MB".

Record service_info : Type := {
  service_name : jsstring;
  service_version : jsstring;
  service_environment : jsstring;
  service_uptime : float
}.

Record database_info : Type := {
  database_status : jsstring;
  database_ready : bool;
  database_message : jsstring
}.

Record memory_info : Type := {
  memory_rss : jsstring;
  memory_heapTotal : jsstring;
  memory_heapUsed : jsstring
}.

Record health_body : Type := {
  health_status : jsstring;
  health_timestamp : jsstring;
  health_service : service_info;
  health_database : database_info;
  health_memory : memory_info
}.

Record endpoints_info : Type := {
  endpoint_health : jsstring;
  endpoint_api : jsstring
}.

Record root_body : Type := {
  root_name : jsstring;
  root_description : jsstring;
  root_version : jsstring;
  root_documentation : jsstring;
  root_status : jsstring;
  root_endpoints : endpoints_info
}.

(** A JSON body of this module, or an answer of another module. *)
Inductive payload : Type :=
| HealthBody (b : health_body)
| RootBody (b : root_body)
| Foreign (label : jsstring).

Record response : Type := {
  statusCode : N;
  json : payload
}.

(** [app.get('/health', ...)] *)
Definition health (c : config) (p : runtime) (req : request) : response :=
  let dbStatus := database p in
  let memoryUsage := memory p in
  {| statusCode := if ready dbStatus then 200%N else 503%N;
     json := HealthBody
       {| health_status := if ready dbStatus then js "healthy" else js "unhealthy";
          health_timestamp := now p;
          health_service :=
            {| service_name := name (app c);
               service_version := or_default (version (app c)) (js "3.0.0");
               service_environment := env (app c);
               service_uptime := uptime p |};
          health_database :=
            {| database_status := status dbStatus;
               database_ready := ready dbStatus;
               database_message := message dbStatus |};
          health_memory :=
            {| memory_rss := megabytes (rss memoryUsage);
               memory_heapTotal := megabytes (heapTotal memoryUsage);
               memory_heapUsed := megabytes (heapUsed memoryUsage) |} |} |}.

(** [app.get('/', ...)] *)
Definition root (c : config) (p : runtime) (req : request) : response :=
  {| statusCode := 200%N;
     json := RootBody
       {| root_name := or_else (name (app c)) (js "Consulting Platform API");
          root_description := js "Enterprise Consulting Platform API";
          root_version := or_default (version (app c)) (js "3.0.0");
          root_documentation := url (app c) ++ js "/docs";
          root_status := js "operational";
          root_endpoints :=
            {| endpoint_health := js "/health";
               endpoint_api := api_mount c |} |} |}.

(** [`Can't find ${req.originalUrl} on this server!`] *)
Definition not_found_message (req : request) : jsstring :=
  js "Can't find " ++ originalUrl req ++ js " on this server!".

(** [app.all('*', ...)] *)
Definition catch_all (req : request) : layer_result response :=
  NextError (AppError (not_found_message req) 404) req.

(** What a layer of another module does with a request. *)
Inductive reply : Type :=
| Pass
| Fail (e : js_error)
| Answer (resp : response).

Definition of_reply (r : reply) (req : request) : layer_result response :=
  match r with
  | Pass => Next req
  | Fail e => NextError e req
  | Answer resp => Respond resp
  end.

(** The behaviour of Express and of the layers this module does not
    own: how a route path and a mount path match a request path, what a
    foreign layer replies, and the parsers' library functions. *)
Record express : Type := {
  route_match : jsstring -> jsstring -> bool;
  mount_match : jsstring -> jsstring -> bool;
  foreign : stage -> request -> reply;
  bytes_parse : jsstring -> option N;
  json_valid : list Byte.byte -> bool;
  form_valid : list Byte.byte -> bool
}.

(** Modelled from the spec: the two handlers of [setupErrorHandling]
    ([./shared/middleware]) are not among the sources; the global error
    handler is the terminal error-handling layer, the not-found handler
    an ordinary one. *)
Definition is_error_handler (s : stage) : bool :=
  match s with ErrorHandler => true | _ => false end.

(** [app.get] serves GET and HEAD. *)
Definition is_get (req : request) : bool :=
  match req_method req with GET | HEAD => true | _ => false end.

Section Dispatch.
Variable x : express.
Variable c : config.
Variable p : runtime.

Definition get_route (pattern : string)
           (handler : request -> layer_result response)
           (req : request) : layer_result response :=
  if is_get req && route_match x (js pattern) (path req)
  then handler req
  else Next req.

Definition mounted (mount : jsstring) (s : stage) (req : request)
  : layer_result response :=
  if mount_match x mount (path req)
  then of_reply (foreign x s req) req
  else Next req.

(** One layer of the stack on a request with no error pending. The
    closures of this module that only fill [res.locals] or track the
    connection call [next()]; the two session routes read the session,
    which lives in a foreign layer, so their answer is foreign too. *)
Definition run_layer (s : stage) (req : request) : layer_result response :=
  match s with
  | CorsMw f =>
      match f (origin req) with
      | Failed m => NextError (Error m) req
      | Allowed => of_reply (foreign x s req) req
      end
  | JsonBody l verify =>
      BodyParser.json (bytes_parse x) (json_valid x) l verify req
  | UrlencodedBody l =>
      BodyParser.urlencoded (bytes_parse x) (form_valid x) l req
  | FlashLocals | TrackConnections | ViewLocals => Next req
  | Static mount _ _ => mounted mount s req
  | ApiRouter mount _ => mounted mount s req
  | Docs => mounted (js "/docs") s req
  | HealthRoute =>
      get_route "/health" (fun r => Respond (health c p r)) req
  | SessionCheckRoute =>
      get_route "/session-check" (fun r => of_reply (foreign x s r) r) req
  | SessionDebugRoute =>
      get_route "/session-debug" (fun r => of_reply (foreign x s r) r) req
  | RootRoute =>
      get_route "/" (fun r => Respond (root c p r)) req
  | CatchAll => catch_all req
  | ErrorHandler => Next req
  | _ => of_reply (foreign x s req) req
  end.

(** How the journey of a request through the stack ends. *)
Inductive ending : Type :=
| Answered (resp : response)
| ToErrorHandler (e : js_error) (req : request)
| FellOff (pending : option js_error) (req : request).

(** Express walks the stack in order; with an error pending it skips to
    the next error-handling layer, and without one it skips those. *)
Fixpoint dispatch (layers : list stage) (pending : option js_error)
         (req : request) : ending :=
  match layers with
  | [] => FellOff pending req
  | s :: rest =>
      match pending with
      | Some e =>
          if is_error_handler s then ToErrorHandler e req
          else dispatch rest (Some e) req
      | None =>
          if is_error_handler s then dispatch rest None req
          else
            match run_layer s req with
            | Next r => dispatch rest None r
            | NextError e r => dispatch rest (Some e) r
            | Respond resp => Answered resp
            end
      end
  end.

(** The request as it leaves [layers] when each of them calls [next()];
    [None] when one of them answers or fails. *)
Fixpoint falls_through (layers : list stage) (req : request) : option request :=
  match layers with
  | [] => Some req
  | s :: rest =>
      if is_error_handler s then falls_through rest req
      else
        match run_layer s req with
        | Next r => falls_through rest r
        | _ => None
        end
  end.

End Dispatch.

(** The stack of a started application. *)
Definition served_stack (c : config) : list stage :=
  middleware_stages c ++ [Passport; ViewLocals]
  ++ route_stages c ++ stages_of error_plan.

(** The layers a request meets before the root route. *)
Definition before_root (c : config) : list stage :=
  middleware_stages c ++ [Passport; ViewLocals]
  ++ [ApiRouter (api_mount c) api_resources; Docs; HealthRoute; SessionCheckRoute]
  ++ when (is_development c) [SessionDebugRoute].

(** The layers a request meets before the health route. *)
Definition before_health (c : config) : list stage :=
  middleware_stages c ++ [Passport; ViewLocals]
  ++ [ApiRouter (api_mount c) api_resources; Docs].

(** The layers a request meets before the catch-all route. *)
Definition before_catch_all (c : config) : list stage :=
  before_root c ++ [RootRoute].

(** [haystack] contains [needle]. *)
Definition contains (haystack needle : jsstring) : Prop :=
  exists before after, haystack = before ++ needle ++ after.

End Routes.

(** ** Sample data *)

Module Samples.
Import JS Config Http Pipeline Effects Routes.

(** A development configuration with two allowed origins. *)
Definition dev_config : config :=
  {| app := {| env := js "development";
               name := js "InsightSerenity";
               version := None;
               url := js "http://localhost:8000";
               apiVersion := None;
               apiPrefix := None;
               uploadLimit := None |};
     security := {| helmet_enabled := true;
                    cors := {| cors_enabled := true;
                               origins := OriginsArray
                                 [js "https://app.example.com";
                                  js " https://admin.example.com " ] |};
                    sanitize_enabled := true |};
     logging_enabled := true;
     session := {| store := js "mongodb"; idleTimeout := Some 1800000%float |} |}.

(** The same configuration in production with CORS switched off and no
    idle timeout. *)
Definition prod_config : config :=
  {| app := {| env := js "production";
               name := js "InsightSerenity";
               version := Some (js "3.1.0");
               url := js "https://api.example.com";
               apiVersion := Some (js "v2");
               apiPrefix := None;
               uploadLimit := Some (LimitBytes 1024) |};
     security := {| helmet_enabled := true;
                    cors := {| cors_enabled := false;
                               origins := OriginsSingle (js "https://app.example.com") |};
                    sanitize_enabled := true |};
     logging_enabled := false;
     session := {| store := js "memory"; idleTimeout := Some 0%float |} |}.

(** An Express in which a route matches its exact path, a mount matches
    the paths below it, foreign layers pass every request on, [10mb] is
    read as 10 MiB and every body parses. *)
Definition plain_express : express :=
  {| route_match := fun pattern path => jsstring_eqb pattern path;
     mount_match := fun mount path =>
       match Regex.strip_prefix mount path with
       | Some [] => true
       | Some (c :: _) => (c =? 47)%N
       | None => false
       end;
     foreign := fun _ _ => Pass;
     bytes_parse := fun _ => Some 10485760%N;
     json_valid := fun _ => true;
     form_valid := fun _ => true |}.

Definition a_runtime (db_ready : bool) : runtime :=
  {| database := {| ready := db_ready;
                    status := if db_ready then js "connected" else js "disconnected";
                    message := js "" |};
     memory := {| rss := 73400320; heapTotal := 52953088; heapUsed := 41418752 |};
     uptime := 12.5%float;
     now := js "2025-01-01T00:00:00.000Z" |}.

Definition get (url : string) : request :=
  {| req_method := GET; originalUrl := js url; path := js url;
     origin := None; content := MediaOther; has_body := false; stream := [];
     rawBody := None; body := None; body_read := false; res := 0 |}.

Definition post (url : string) (kind : media) (bytes : string) : request :=
  {| req_method := POST; originalUrl := js url; path := js url;
     origin := None; content := kind; has_body := true;
     stream := list_byte_of_string bytes;
     rawBody := None; body := None; body_read := false; res := 0 |}.

(** A world in which the datastore refuses the connection. *)
Definition connection_refused : js_error := Error (js "connect ECONNREFUSED").

Definition no_datastore : world :=
  {| connect_fails := Some connection_refused; close_fails := None;
     passport_fails := None; build_fails := fun _ => None;
     end_fails := fun _ => None |}.

(** A world in which closing the datastore fails. *)
Definition close_breaks : world :=
  {| connect_fails := None; close_fails := Some (Error (js "close failed"));
     passport_fails := None; build_fails := fun _ => None;
     end_fails := fun _ => None |}.

End Samples.

(** ** What a computation installs *)

Module Installation.
Import JS Http Pipeline Effects Lifecycle.

(** A computation installs the stages [S] when it appends exactly [S]
    to the stack if it returns and, if it throws, only the stages of [S]
    that come before some stage left out. *)
Definition installs (m : M unit) (S : list stage) : Prop :=
  forall app,
    match m app with
    | (Returned _, app', _) => stack app' = stack app ++ S
    | (Threw _, app', _) =>
        exists done rest,
          S = done ++ rest /\ rest <> [] /\ stack app' = stack app ++ done
    end.

(** A computation that leaves the stack alone, whatever its outcome. *)
Definition keeps_stack (m : M unit) : Prop :=
  forall app, match m app with (_, app', _) => stack app' = stack app end.

(** A computation that never throws. *)
Definition returns (m : M unit) : Prop :=
  forall app, match m app with (Returned _, _, _) => True | _ => False end.

Definition is_error_log (e : event) : bool :=
  match e with Log error _ _ => true | _ => false end.

(** The entry [logger.info('Application initialized successfully')]. *)
Definition is_initialized_log (e : event) : bool :=
  match e with
  | Log info message None =>
      jsstring_eqb message (js "Application initialized successfully")
  | _ => false
  end.

(** No event of the computation satisfies [P], however it ends. *)
Definition never (P : event -> bool) (m : M unit) : Prop :=
  forall app, match m app with (_, _, tr) => existsb P tr = false end.

Definition is_terminal (s : stage) : bool :=
  match s with ErrorHandler => true | _ => false end.

(** However the computation ends, [trust proxy] is on afterwards when
    it was on before or [b] holds. *)
Definition proxy_after (b : bool) (m : M unit) : Prop :=
  forall app,
    match m app with (_, app', _) => trust_proxy app' = trust_proxy app || b end.

Definition is_trust_step (st : step) : bool :=
  match st with TrustProxy => true | _ => false end.

End Installation.

(** ** The order of the connection set *)

Module History.
Import Http Lifecycle.

(** The response handles of the requests that started in [acts] and did
    not finish later, in the order in which they started. *)
Fixpoint open_in_order (acts : list action) : list handle :=
  match acts with
  | [] => []
  | RequestStart r :: rest =>
      if no_finish r rest then r :: open_in_order rest else open_in_order rest
  | _ :: rest => open_in_order rest
  end.

End History.

(** ** The order of the pipeline *)

Module PipelineOrder.
Import JS Config Cors Pipeline.

(** The place of a stage in [setupMiddleware], by the order of its
    [app.use] in the source; the two method overrides and the two
    static mounts are told apart by their getter and their mount path.
    No place ([0]) for a stage [setupMiddleware] does not install. *)
Definition position (s : stage) : nat :=
  match s with
  | Helmet _ => 1
  | CorsMw _ => 2
  | JsonBody _ _ => 3
  | UrlencodedBody _ => 4
  | MongoSanitize => 5
  | CookieParser => 6
  | Compression => 7
  | MethodOverride getter =>
      if jsstring_eqb getter (js "_method") then 8
      else if jsstring_eqb getter (js "X-HTTP-Method-Override") then 9
      else 0
  | Static mount _ _ =>
      if jsstring_eqb mount (js "/uploads") then 10
      else if jsstring_eqb mount (js "/public") then 11
      else 0
  | HttpLogger => 12
  | Morgan => 13
  | SessionMw _ _ => 14
  | Flash => 15
  | FlashLocals => 16
  | SessionSecurity => 17
  | SessionActivity => 18
  | IdleSessionTimeout _ => 19
  | TrackConnections => 20
  | _ => 0
  end.

(** Every number is above the one before it, the first above [above]. *)
Fixpoint increasing (above : nat) (l : list nat) : bool :=
  match l with
  | [] => true
  | a :: rest => (above <? a) && increasing a rest
  end.

(** The stages [setupMiddleware] installs before the body parsers. *)
Definition before_body (c : config) : list stage :=
  when (helmet_enabled (security c)) [Helmet (is_production c)]
  ++ when (cors_enabled (cors (security c))) [CorsMw (origin_callback c)].

(** A setting with a default, in the words of the configuration: the
    [value] is the configured text when there is one, and the [default]
    when the setting is missing or empty. *)
Definition setting_or (setting : option jsstring) (default value : jsstring)
  : Prop :=
  (exists text, setting = Some text /\ text <> [] /\ value = text)
  \/ ((setting = None \/ setting = Some []) /\ value = default).

End PipelineOrder.

(** ** Requests on the running instance *)

Module Serving.
Import JS Config Http Pipeline Effects Lifecycle Routes.
Local Open Scope effect_scope.

(** What happens to the instance over its life, seen from outside: it
    is started and stopped, requests arrive, and responses emit
    [finish]. *)
Inductive occurrence : Type :=
| Starts (w : world)
| Stops (w : world)
| Arrives (req : request)
| Finishes (r : handle).






Section Serve.
Variable x : express.
Variable c : config.
Variable p : runtime.

(** Express walks the stack on a request as [dispatch] does, and the
    closure of the connection-tracking stage works on the instance
    before it calls [next()]. *)
Fixpoint serve (layers : list stage) (pending : option js_error)
         (req : request) : M ending :=
  match layers with
  | [] => ret (FellOff pending req)
  | s :: rest =>
      match pending with
      | Some e =>
          if is_error_handler s then ret (ToErrorHandler e req)
          else serve rest (Some e) req
      | None =>
          if is_error_handler s then serve rest None req
          else
            match s with
            | TrackConnections => track (res req) ;; serve rest None req
            | _ =>
                match run_layer x c p s req with
                | Next r => serve rest None r
                | NextError e r => serve rest (Some e) r
                | Respond resp => ret (Answered resp)
                end
            end
      end
  end.

(** A request arrives: Express runs the stack the instance has at that
    moment. *)
Definition arrive (req : request) : M ending :=
  fun app => serve (stack app) None req app.


Definition happen (o : occurrence) : M unit :=
  match o with
  | Starts w => start c w
  | Stops w => stop w
  | Arrives req => bind (arrive req) (fun _ => ret tt)
  | Finishes r => finish r
  end.

(** The instance after [o]. *)
Definition after (o : occurrence) (app : application) : application :=
  snd (fst (happen o app)).





End Serve.

End Serving.

(** ** Sessions and inactivity *)

Module Sessions.
Import JS Pipeline.

(** Modelled from the spec: the session manager
    ([./shared/security/session-manager]) is not among the sources. Its
    idle-timeout middleware is "parameterized by an idle-minutes
    threshold" and "invalidates sessions inactive beyond the
    threshold"; no other layer invalidates a session for inactivity.
    [idle] is the time in minutes since the last activity of the
    session. *)
Definition invalidates_idle_session (s : stage) (idle : float) : bool :=
  match s with
  | IdleSessionTimeout threshold => (threshold <? idle)%float
  | _ => false
  end.

(** Some layer of the stack invalidates a session that has been idle
    for [idle] minutes. *)
Definition invalidated_for_inactivity (layers : list stage) (idle : float)
  : bool :=
  existsb (fun s => invalidates_idle_session s idle) layers.

End Sessions.

Module MoreSamples.
Import JS Http Effects.

(** An instance with two responses in flight. *)
Definition two_open : application :=
  {| stack := []; trust_proxy := false; connections := [1; 2];
     isShuttingDown := false; finish_listeners := [2; 1] |}.

Definition broken_pipe : js_error := Error (js "write EPIPE").

(** A world in which ending the response [2] throws. *)
Definition second_end_breaks : world :=
  {| connect_fails := None; close_fails := None; passport_fails := None;
     build_fails := fun _ => None;
     end_fails := fun r => if Nat.eqb r 2 then Some broken_pipe else None |}.

(** A JSON request from a page of another site. *)
Definition cross_site_post : request :=
  {| req_method := POST; originalUrl := js "/api/v1/contact";
     path := js "/api/v1/contact"; origin := Some (js "https://evil.example");
     content := MediaJson; has_body := true; stream := list_byte_of_string "{}";
     rawBody := None; body := None; body_read := false; res := 3 |}.

(** A JSON request of 2000 bytes. *)
Definition large_post : request :=
  {| req_method := POST; originalUrl := js "/api/v2/contact";
     path := js "/api/v2/contact"; origin := None;
     content := MediaJson; has_body := true;
     stream := List.repeat Byte.x61 2000;
     rawBody := None; body := None; body_read := false; res := 4 |}.

End MoreSamples.
(* ================================================================== *)
(** * Part II: properties *)
(* ================================================================== *)

Unset Implicit Arguments.

(** ** Strings and regular expressions *)

Module JSFacts.
Import JS.

Lemma jsstring_eqb_eq (a b : jsstring) : jsstring_eqb a b = true <-> a = b.
Proof.
  revert b; induction a as [|x a IH]; intros [|y b]; simpl;
    try (split; [discriminate | discriminate]); try tauto.
  unfold code_unit_eqb. rewrite andb_true_iff, N.eqb_eq, IH.
  split; [intros [-> ->]; reflexivity | intros H; inversion H; auto].
Qed.

Lemma includes_In (arr : list jsstring) (x : jsstring) :
  includes arr x = true <-> In x arr.
Proof.
  unfold includes. rewrite existsb_exists. split.
  - intros [y [Hin Heq]]. apply jsstring_eqb_eq in Heq. subst; assumption.
  - intros Hin. exists x. split; [assumption | apply jsstring_eqb_eq; reflexivity].
Qed.

Lemma truthy_opt_string_false (o : option jsstring) :
  truthy_opt_string o = false <-> o = None \/ o = Some [].
Proof.
  destruct o as [[|c s]|]; simpl; split; intros H; auto;
    try discriminate; destruct H as [H|H]; discriminate.
Qed.

End JSFacts.

Module RegexFacts.
Import JS Regex.

Lemma strip_prefix_spec (p s rest : jsstring) :
  strip_prefix p s = Some rest <-> s = p ++ rest.
Proof.
  revert s; induction p as [|x p IH]; intros s; simpl.
  - split; [intros H; inversion H; reflexivity | intros ->; reflexivity].
  - destruct s as [|y s]; [split; discriminate|].
    unfold code_unit_eqb. destruct (N.eqb_spec x y) as [->|Hne].
    + rewrite IH. split; [intros ->; reflexivity | intros H; inversion H; reflexivity].
    + split; [discriminate | intros H; inversion H; congruence].
Qed.

Lemma many_spec (cls : code_unit -> bool) (k : jsstring -> bool) (s : jsstring) :
  many cls s k = true <->
  exists s1 s2, s = s1 ++ s2 /\ Forall (fun c => cls c = true) s1 /\ k s2 = true.
Proof.
  induction s as [|c s IH]; simpl.
  - split.
    + intros H. exists [], []. auto.
    + intros (s1 & s2 & Heq & _ & Hk).
      symmetry in Heq. apply app_eq_nil in Heq. destruct Heq; subst; assumption.
  - rewrite orb_true_iff, andb_true_iff, IH. split.
    + intros [[Hc (s1 & s2 & -> & Hall & Hk)] | Hk].
      * exists (c :: s1), s2. auto.
      * exists [], (c :: s). auto.
    + intros (s1 & s2 & Heq & Hall & Hk). destruct s1 as [|c1 s1]; simpl in Heq.
      * right. subst; assumption.
      * left. inversion Heq; subst. inversion Hall; subst.
        split; [assumption | exists s1, s2; auto].
Qed.

Lemma run_spec (r : regex) : forall (k : jsstring -> bool) (s : jsstring),
  run r s k = true <->
  exists s1 s2, s = s1 ++ s2 /\ denotes r s1 /\ k s2 = true.
Proof.
  induction r as [l | r1 IH1 r2 IH2 | r IH | cls]; intros k s; simpl.
  - destruct (strip_prefix l s) as [rest|] eqn:E.
    + apply strip_prefix_spec in E. split.
      * intros Hk. exists l, rest. auto.
      * intros (s1 & s2 & Heq & -> & Hk).
        rewrite E in Heq. apply app_inv_head in Heq. subst; assumption.
    + split; [discriminate|]. intros (s1 & s2 & Heq & -> & Hk).
      apply strip_prefix_spec in Heq. congruence.
  - rewrite IH1. split.
    + intros (s1 & s2 & -> & H1 & H2). apply IH2 in H2.
      destruct H2 as (t1 & t2 & -> & H2 & Hk).
      exists (s1 ++ t1), t2. rewrite app_assoc. split; [reflexivity|].
      split; [exists s1, t1; auto | assumption].
    + intros (s12 & s3 & -> & (s1 & s2 & -> & H1 & H2) & Hk).
      exists s1, (s2 ++ s3). rewrite app_assoc. split; [reflexivity|].
      split; [assumption|]. apply IH2. exists s2, s3. auto.
  - rewrite orb_true_iff, IH. split.
    + intros [(s1 & s2 & -> & H1 & Hk) | Hk].
      * exists s1, s2. auto.
      * exists [], s. auto.
    + intros (s1 & s2 & -> & [-> | H1] & Hk).
      * right. assumption.
      * left. exists s1, s2. auto.
  - destruct s as [|c s].
    + split; [discriminate|]. intros (s1 & s2 & Heq & [Hne _] & _).
      symmetry in Heq. apply app_eq_nil in Heq. destruct Heq; contradiction.
    + rewrite andb_true_iff, many_spec. split.
      * intros [Hc (s1 & s2 & -> & Hall & Hk)].
        exists (c :: s1), s2. repeat split; auto. discriminate.
      * intros (s1 & s2 & Heq & [Hne Hall] & Hk).
        destruct s1 as [|c1 s1]; [contradiction|].
        simpl in Heq. inversion Heq; subst. inversion Hall; subst.
        split; [assumption | exists s1, s2; auto].
Qed.

Lemma at_end_true (s : jsstring) : at_end s = true <-> s = [].
Proof. destruct s; simpl; split; congruence. Qed.

(** The matcher decides membership in the language of the expression. *)
Lemma test_spec (r : regex) (s : jsstring) : test r s = true <-> denotes r s.
Proof.
  unfold test. rewrite run_spec. split.
  - intros (s1 & s2 & -> & H & Hk). apply at_end_true in Hk. subst.
    rewrite app_nil_r. assumption.
  - intros H. exists s, []. rewrite app_nil_r. auto.
Qed.

End RegexFacts.

(** ** The CORS origin predicate *)

Module CorsFacts.
Import JS Regex Config Cors JSFacts RegexFacts.

Lemma denotes_scheme_prefix (s : jsstring) :
  denotes scheme_prefix s <-> exists sch, local_scheme sch /\ s = sch ++ js "://".
Proof.
  unfold scheme_prefix, local_scheme. cbn [denotes]. split.
  - intros (s1 & s2 & -> & -> & t1 & t2 & -> & [-> | ->] & ->).
    + exists (js "http"). auto.
    + exists (js "https"). split; [auto | reflexivity].
  - intros (sch & [-> | ->] & ->).
    + exists (js "http"), (js "://"). repeat split.
      exists [], (js "://"). auto.
    + exists (js "http"), (js "s" ++ js "://"). repeat split.
      exists (js "s"), (js "://"). auto.
Qed.

Lemma denotes_port_suffix (p : jsstring) :
  denotes port_suffix p <-> any_port p.
Proof.
  unfold port_suffix, any_port, digits1. cbn [denotes]. split.
  - intros [-> | (s1 & s2 & -> & -> & Hd)]; [auto|].
    right. exists s2. auto.
  - intros [-> | (d & Hd & ->)]; [auto|].
    right. exists (js ":"), d. auto.
Qed.

(** A regular expression [https?:\/\/<host>(:\d+)?]. *)
Lemma denotes_origin_shape (host : regex) (s : jsstring) :
  denotes (Cat scheme_prefix (Cat host port_suffix)) s <->
  exists sch h port,
    local_scheme sch /\ denotes host h /\ any_port port
    /\ s = sch ++ js "://" ++ h ++ port.
Proof.
  cbn [denotes]. fold (denotes scheme_prefix). fold (denotes port_suffix). split.
  - intros (s1 & s2 & -> & H1 & h & p & -> & Hh & Hp).
    apply denotes_scheme_prefix in H1. destruct H1 as (sch & Hs & ->).
    apply denotes_port_suffix in Hp.
    exists sch, h, p. rewrite <- app_assoc. auto.
  - intros (sch & h & p & Hs & Hh & Hp & ->).
    exists (sch ++ js "://"), (h ++ p). rewrite <- app_assoc.
    split; [reflexivity|]. split.
    + apply denotes_scheme_prefix. exists sch. auto.
    + exists h, p. split; [reflexivity|]. split; [assumption|].
      apply denotes_port_suffix. assumption.
Qed.

Lemma denotes_lan_host (h : jsstring) :
  denotes (Cat (Lit (js "10.0.0.")) (Plus digit)) h <->
  exists d, digits1 d /\ h = js "10.0.0." ++ d.
Proof.
  unfold digits1. cbn [denotes]. split.
  - intros (s1 & s2 & -> & -> & Hd). exists s2. auto.
  - intros (d & Hd & ->). exists (js "10.0.0."), d. auto.
Qed.

Lemma re_lan_shape (s : jsstring) :
  denotes re_lan s <->
  denotes (Cat scheme_prefix
               (Cat (Cat (Lit (js "10.0.0.")) (Plus digit)) port_suffix)) s.
Proof.
  unfold re_lan. cbn [denotes]. split.
  - intros (s1 & s2 & -> & H1 & a & bc & -> & -> & b & c & -> & Hb & Hc).
    exists s1, (js "10.0.0." ++ b ++ c). split; [reflexivity|]. split; [assumption|].
    exists (js "10.0.0." ++ b), c. rewrite <- app_assoc. split; [reflexivity|].
    split; [|assumption]. exists (js "10.0.0."), b. auto.
  - intros (s1 & s2 & -> & H1 & ab & c & -> & (a & b & -> & -> & Hb) & Hc).
    exists s1, ((js "10.0.0." ++ b) ++ c). split; [reflexivity|]. split; [assumption|].
    exists (js "10.0.0."), (b ++ c). rewrite <- app_assoc. split; [reflexivity|].
    split; [reflexivity|]. exists b, c. auto.
Qed.

(** The three expressions of the development fallback accept exactly
    the local origins. *)
Lemma isLocalhost_spec (s : jsstring) :
  isLocalhost s = true <-> local_origin s.
Proof.
  unfold isLocalhost, local_origin, local_host.
  rewrite !orb_true_iff, !test_spec, re_lan_shape.
  unfold re_localhost, re_loopback. rewrite !denotes_origin_shape. split.
  - intros [[H | H] | H]; destruct H as (sch & h & p & Hs & Hh & Hp & ->).
    + cbn [denotes] in Hh. exists sch, h, p. auto.
    + cbn [denotes] in Hh. exists sch, h, p. auto 6.
    + apply denotes_lan_host in Hh. exists sch, h, p. auto 6.
  - intros (sch & h & p & Hs & [-> | [-> | Hh]] & Hp & ->).
    + left; left. exists sch, (js "localhost"), p. cbn [denotes]. auto.
    + left; right. exists sch, (js "127.0.0.1"), p. cbn [denotes]. auto.
    + right. exists sch, h, p. rewrite denotes_lan_host. auto.
Qed.

Lemma is_development_spec (c : config) :
  is_development c = true <-> env (app c) = js "development".
Proof. unfold is_development. apply jsstring_eqb_eq. Qed.

Lemma listed_spec (O : origins_setting) (r : jsstring) :
  listed O r <-> In r (List.map trim (allowedOrigins O)).
Proof.
  destruct O as [members|member|]; cbn [listed allowedOrigins].
  - rewrite in_map_iff. split; intros (a & H1 & H2); exists a; auto.
  - destruct member as [|ch rest]; cbn.
    + split; [intros [H _]; contradiction | intros []].
    + split; [intros [_ H]; left; exact H | intros [H | []]; split; [discriminate | exact H]].
  - tauto.
Qed.

Example localhost_3000_is_local :
  isLocalhost (js "http://localhost:3000") = true.
Proof. reflexivity. Qed.

Example lan_host_is_local :
  isLocalhost (js "https://10.0.0.42:8080") = true.
Proof. reflexivity. Qed.

Example other_lan_is_not_local :
  isLocalhost (js "http://192.168.1.10:3000") = false.
Proof. reflexivity. Qed.

Example trailing_slash_is_not_local :
  isLocalhost (js "http://localhost:3000/") = false.
Proof. reflexivity. Qed.

(** The predicate on the sample configuration: a listed origin with
    stray blanks, a local origin in development, and a foreign one. *)
Example listed_origin_is_allowed :
  origin_callback Samples.dev_config (Some (js "https://admin.example.com  "))
  = Allowed.
Proof. reflexivity. Qed.

Example local_origin_is_allowed_in_development :
  origin_callback Samples.dev_config (Some (js "http://127.0.0.1:5173")) = Allowed.
Proof. reflexivity. Qed.

Example foreign_origin_is_refused :
  origin_callback Samples.dev_config (Some (js "https://evil.example"))
  = Failed (js "Not allowed by CORS").
Proof. reflexivity. Qed.

Example single_origin_is_allowed :
  origin_callback Samples.prod_config (Some (js " https://app.example.com"))
  = Allowed
  /\ origin_callback Samples.prod_config (Some (js "http://localhost:3000"))
     = Failed (js "Not allowed by CORS").
Proof. split; reflexivity. Qed.

Example missing_origin_is_allowed :
  origin_callback Samples.dev_config None = Allowed
  /\ origin_callback Samples.dev_config (Some (js "")) = Allowed.
Proof. split; reflexivity. Qed.

(** C1. With CORS enabled, the origin predicate allows a request origin
    exactly when the origin is absent (no header, or an empty one), or
    the trimmed origin is one of the configured origins, trimmed (the
    entries of a configured array, or the one configured origin), or the
    environment is [development] and the trimmed origin is an [http] or
    [https] origin of [localhost], [127.0.0.1] or [10.0.0.<n>] on any
    port; every other origin makes the predicate fail with the error
    [Not allowed by CORS]. *)
Theorem cors_origin_allowed_iff (c : config) (origin : option jsstring) :
  (origin_callback c origin = Allowed <-> origin_permitted c origin)
  /\ (~ origin_permitted c origin ->
      origin_callback c origin = Failed (js "Not allowed by CORS")).
Proof.
  assert (Hiff : origin_callback c origin = Allowed <-> origin_permitted c origin).
  { unfold origin_callback, origin_permitted, absent, trimmedAllowedOrigins.
    destruct origin as [o|]; cbn [truthy_opt_string negb].
    2:{ split; auto. }
    destruct o as [|ch o']; cbn [truthy_string negb].
    { split; auto. }
    set (o := ch :: o').
    destruct (includes _ (trim o)) eqn:Hinc.
    { apply includes_In in Hinc. apply listed_spec in Hinc. split; [|reflexivity].
      intros _. right; left. exists o. auto. }
    assert (Hnin : ~ listed (origins (cors (security c))) (trim o)).
    { intros Hin. apply listed_spec, includes_In in Hin. congruence. }
    destruct (is_development c && isLocalhost (trim o)) eqn:Hdev.
    { apply andb_true_iff in Hdev. destruct Hdev as [Hd Hl].
      apply is_development_spec in Hd. apply isLocalhost_spec in Hl.
      split; [|reflexivity]. intros _. right; right. split; [assumption|].
      exists o. auto. }
    split; [discriminate|].
    intros [[H | H] | [(o2 & Ho & Hin) | (Hd & o2 & Ho & Hl)]];
      try discriminate.
    - inversion Ho; subst o2. contradiction.
    - inversion Ho; subst o2.
      apply is_development_spec in Hd. apply isLocalhost_spec in Hl.
      rewrite Hd, Hl in Hdev. discriminate. }
  split; [exact Hiff|].
  intros Hnot.
  destruct (origin_callback c origin) as [|msg] eqn:E.
  - exfalso. apply Hnot, Hiff. reflexivity.
  - unfold origin_callback in E.
    repeat match type of E with
           | (if ?b then _ else _) = _ => destruct b
           | match ?x with _ => _ end = _ => destruct x
           end; try discriminate; inversion E; reflexivity.
Qed.

End CorsFacts.

(** ** Setup plans and [start] *)

Module LifecycleFacts.
Import JS Config Http Pipeline Effects Lifecycle.
Local Open Scope effect_scope.

Lemma bind_returned {A B : Type} (m : M A) (k : A -> M B) app a app1 t1 :
  m app = (Returned a, app1, t1) ->
  bind m k app =
  (fst (fst (k a app1)), snd (fst (k a app1)), t1 ++ snd (k a app1)).
Proof.
  intros H. unfold bind. rewrite H.
  destruct (k a app1) as [[o app2] t2]. reflexivity.
Qed.

Lemma bind_threw {A B : Type} (m : M A) (k : A -> M B) app e app1 t1 :
  m app = (Threw e, app1, t1) -> bind m k app = (Threw e, app1, t1).
Proof. intros H. unfold bind. rewrite H. reflexivity. Qed.

Lemma trace_of_app (p q : list step) :
  trace_of (p ++ q) = trace_of p ++ trace_of q.
Proof. apply map_app. Qed.

Lemma install_app (p q : list step) (a : application) :
  install (p ++ q) a = install q (install p a).
Proof. apply fold_left_app. Qed.

(** A plan runs to its end, or stops at the first factory that throws. *)
Lemma run_plan_cases (w : world) (p : list step) : forall app,
  run_plan w p app = (Returned tt, install p app, trace_of p)
  \/ (exists p1 s p2 e,
         p = p1 ++ Use s :: p2 /\ build_fails w s = Some e
         /\ run_plan w p app = (Threw e, install p1 app, trace_of p1)).
Proof.
  induction p as [|st p IH]; intros app.
  - left. reflexivity.
  - assert (Hstep :
        run_step w st app = (Returned tt, install_step st app, [event_of st])
        \/ exists s e, st = Use s /\ build_fails w s = Some e
                       /\ run_step w st app = (Threw e, app, [])).
    { destruct st as [s| |l m]; cbn [run_step].
      - unfold app_use. destruct (build_fails w s) as [e|] eqn:E.
        + right. exists s, e. auto.
        + left. reflexivity.
      - left. reflexivity.
      - left. reflexivity. }
    destruct Hstep as [Hok | (s & e & -> & Hf & Hthrow)].
    + cbn [run_plan]. rewrite (bind_returned _ _ _ _ _ _ Hok).
      destruct (IH (install_step st app)) as [H | (p1 & s & p2 & e & -> & Hf & H)].
      * left. rewrite H. reflexivity.
      * right. exists (st :: p1), s, p2, e. rewrite H. auto.
    + right. exists [], s, p, e. cbn [run_plan].
      rewrite (bind_threw _ _ _ _ _ _ Hthrow). auto.
Qed.

Lemma stack_install (p : list step) : forall app,
  stack (install p app) = stack app ++ stages_of p.
Proof.
  induction p as [|st p IH]; intros app; cbn [install fold_left stages_of].
  - rewrite app_nil_r. reflexivity.
  - fold (install p (install_step st app)). rewrite IH.
    destruct st; cbn [install_step push_stage set_trust_proxy stack];
      rewrite <- ?app_assoc; reflexivity.
Qed.

Lemma connections_install (p : list step) : forall app,
  connections (install p app) = connections app
  /\ isShuttingDown (install p app) = isShuttingDown app
  /\ finish_listeners (install p app) = finish_listeners app.
Proof.
  induction p as [|st p IH]; intros app; cbn [install fold_left].
  - auto.
  - fold (install p (install_step st app)).
    destruct (IH (install_step st app)) as (H1 & H2 & H3).
    rewrite H1, H2, H3. destruct st; auto.
Qed.

(** *** Runs that stop early *)

Lemma follows_emit (ev : event) : follows (emit ev) [ev].
Proof. intros app. reflexivity. Qed.

Lemma follows_modify (f : application -> application) : follows (modify f) [].
Proof. intros app. reflexivity. Qed.

Lemma follows_ret : follows (ret tt) [].
Proof. intros app. reflexivity. Qed.

Lemma follows_call (ev : event) (fails : option js_error) :
  follows (call ev fails) [ev].
Proof.
  intros app. unfold call. destruct fails as [e|]; [|reflexivity].
  exists [ev], [], []. auto.
Qed.

Lemma follows_bind (m : M unit) (k : unit -> M unit) (T1 T2 : list event) :
  follows m T1 -> (forall u, follows (k u) T2) -> follows (bind m k) (T1 ++ T2).
Proof.
  intros H1 H2 app. unfold bind. specialize (H1 app).
  destruct (m app) as [[[u|e] app1] t1].
  - subst t1. specialize (H2 u app1).
    destruct (k u app1) as [[[u'|e] app2] t2].
    + subst. reflexivity.
    + destruct H2 as (pre & suf & logs & -> & -> & Hl).
      exists (T1 ++ pre), suf, logs. rewrite <- !app_assoc. auto.
  - destruct H1 as (pre & suf & logs & -> & -> & Hl).
    exists pre, (suf ++ T2), logs. rewrite <- app_assoc. auto.
Qed.

(** [try { m } catch (error) { logger.error(...); throw error; }] *)
Lemma follows_logged (m : M unit) (message : string) (T : list event) :
  follows m T ->
  follows (try_catch m (fun e => log_error message e ;; throw e)) T.
Proof.
  intros H app. unfold try_catch. specialize (H app).
  destruct (m app) as [[[u|e] app1] t1]; [assumption|].
  destruct H as (pre & suf & logs & -> & -> & Hl).
  cbn. exists pre, suf, (logs ++ [Log error (js message) (Some (error_message e))]).
  rewrite <- app_assoc. split; [reflexivity|]. split; [reflexivity|].
  rewrite forallb_app, Hl. reflexivity.
Qed.

Lemma follows_app_use (w : world) (s : stage) : follows (app_use w s) [AppUse s].
Proof.
  intros app. unfold app_use. destruct (build_fails w s) as [e|].
  - exists [], [AppUse s], []. auto.
  - reflexivity.
Qed.

Lemma follows_run_plan (w : world) (p : list step) :
  follows (run_plan w p) (trace_of p).
Proof.
  induction p as [|st p IH]; cbn [run_plan trace_of map].
  - apply follows_ret.
  - change (event_of st :: map event_of p) with ([event_of st] ++ trace_of p).
    apply follows_bind; [|intros _; exact IH].
    destruct st as [s| |l m]; cbn [run_step event_of].
    + apply follows_app_use.
    + apply follows_bind with (T1 := [AppSetTrustProxy]) (T2 := []);
        [apply follows_emit | intros _; apply follows_modify].
    + apply follows_emit.
Qed.

Lemma follows_setupPassport (w : world) : follows (setupPassport w) passport_trace.
Proof.
  unfold setupPassport, passport_trace.
  apply follows_bind with (T1 := [PassportInitialize; AppUse Passport;
                   Log info (js "Authentication strategies initialized successfully") None])
           (T2 := [AppUse ViewLocals]).
  - apply follows_logged.
    apply follows_bind with (T1 := [PassportInitialize; AppUse Passport]);
      [|intros _; apply follows_emit].
    unfold passport_initialize.
    apply follows_bind with (T1 := [PassportInitialize]); [apply follows_call|]. intros _.
    apply follows_bind with (T1 := [AppUse Passport]); [apply follows_emit|]. intros _.
    apply follows_modify.
  - intros _. apply follows_app_use.
Qed.

Lemma follows_initialize (c : config) (w : world) :
  follows (initialize c w)
          (trace_of (middleware_plan c) ++ passport_trace
           ++ trace_of (routes_plan c) ++ trace_of error_plan).
Proof.
  unfold initialize.
  apply follows_bind; [apply follows_run_plan|]. intros _.
  apply follows_bind; [apply follows_setupPassport|]. intros _.
  apply follows_bind; [apply follows_run_plan|]. intros _.
  apply follows_run_plan.
Qed.

Lemma follows_start (c : config) (w : world) : follows (start c w) (undisturbed c).
Proof.
  unfold start, undisturbed. apply follows_logged.
  apply follows_bind with (T1 := [DatabaseConnect]); [apply follows_call|]. intros _.
  apply follows_bind with (T1 := [Log info (js "Database connected successfully") None]);
    [apply follows_emit|]. intros _.
  rewrite !app_assoc.
  apply follows_bind; [|intros _; apply follows_emit].
  rewrite <- !app_assoc. apply follows_initialize.
Qed.

(** *** List splitting *)

Ltac in_cases H :=
  lazymatch type of H with
  | In _ (_ ++ _) =>
      apply in_app_or in H; destruct H as [H | H]; [in_cases H | in_cases H]
  | In _ (_ :: _) => destruct H as [H | H]; [try discriminate | in_cases H]
  | In _ [] => destruct H
  | _ \/ _ => destruct H as [H | H]; [try discriminate | in_cases H]
  | False => destruct H
  | _ => idtac
  end.

Lemma split_in_clean_prefix {A : Type} (Q : A -> bool) (l1 : list A) :
  forall l2 pre x post,
    l1 ++ l2 = pre ++ x :: post ->
    forallb (fun a => negb (Q a)) l1 = true -> Q x = true ->
    exists pre2, pre = l1 ++ pre2.
Proof.
  induction l1 as [|a l1 IH]; intros l2 pre x post Heq Hclean Hx.
  - exists pre. reflexivity.
  - cbn in Hclean. apply andb_true_iff in Hclean. destruct Hclean as [Ha Hclean].
    destruct pre as [|b pre]; cbn in Heq; inversion Heq; subst.
    + rewrite Hx in Ha. discriminate.
    + destruct (IH _ _ _ _ H1 Hclean Hx) as [pre2 ->]. exists pre2. reflexivity.
Qed.

Lemma split_before_tail {A : Type} (Q : A -> bool) (l1 : list A) :
  forall tail pre x post,
    l1 ++ tail = pre ++ x :: post ->
    forallb Q tail = true -> Q x = false ->
    exists post1, l1 = pre ++ x :: post1.
Proof.
  induction l1 as [|a l1 IH]; intros tail pre x post Heq Htail Hx.
  - cbn in Heq. subst tail. rewrite forallb_app in Htail.
    apply andb_true_iff in Htail. destruct Htail as [_ Htail].
    cbn in Htail. rewrite Hx in Htail. discriminate.
  - destruct pre as [|b pre]; cbn in Heq; inversion Heq; subst.
    + exists l1. reflexivity.
    + destruct (IH _ _ _ _ H1 Htail Hx) as [post1 ->]. exists post1. reflexivity.
Qed.

(** *** What a plan can emit *)

Lemma middleware_plan_no_route (c : config) :
  forallb (fun e => negb (is_route_use e)) (trace_of (middleware_plan c)) = true.
Proof.
  unfold middleware_plan, trace_of, when.
  destruct (is_production c), (helmet_enabled (security c)),
    (cors_enabled (cors (security c))), (sanitize_enabled (security c)),
    (logging_enabled c), (is_development c);
    destruct (idleTimeout (session c)) as [ms|];
    try destruct (truthy_number ms); reflexivity.
Qed.

Lemma trace_of_no_passport (p : list step) : ~ In PassportInitialize (trace_of p).
Proof.
  unfold trace_of. rewrite in_map_iff. intros (st & H & _).
  destruct st; discriminate.
Qed.

Lemma in_trace_of_stage (p : list step) (s : stage) :
  In (AppUse s) (trace_of p) <-> In s (stages_of p).
Proof.
  induction p as [|st p IH]; cbn [trace_of map stages_of In]; [tauto|].
  fold (trace_of p). destruct st as [s'| |l m]; cbn [event_of In].
  - rewrite IH. split; (intros [H | H]; [left; congruence | right; assumption]).
  - rewrite IH. split; [intros [H | H]; [discriminate | assumption] | auto].
  - rewrite IH. split; [intros [H | H]; [discriminate | assumption] | auto].
Qed.

(** *** [start] under given failures *)

Lemma start_connect_fails (c : config) (w : world) (app : application) (e : js_error) :
  connect_fails w = Some e ->
  start c w app =
  (Threw e, app,
   [DatabaseConnect;
    Log error (js "Failed to start application") (Some (error_message e))]).
Proof.
  intros H. unfold start, try_catch, bind, call. rewrite H. reflexivity.
Qed.

Lemma setupPassport_fails (w : world) (app : application) (e : js_error) :
  passport_fails w = Some e ->
  setupPassport w app =
  (Threw e, app,
   [PassportInitialize;
    Log error (js "Failed to configure authentication strategies")
        (Some (error_message e))]).
Proof.
  intros H. unfold setupPassport, passport_initialize, try_catch, bind, call.
  rewrite H. reflexivity.
Qed.

Lemma start_passport_fails (c : config) (w : world) (app : application) (e : js_error) :
  connect_fails w = None -> passport_fails w = Some e ->
  match start c w app with
  | (o, _, tr) =>
      ~ In PassportInitialize tr
      \/ (o = Threw e /\ forall s, In (AppUse s) tr -> is_route s = false)
  end.
Proof.
  intros Hc Hp.
  unfold start, try_catch. unfold bind at 1. unfold call at 1. rewrite Hc.
  unfold bind at 1. cbn [log emit].
  unfold bind at 1. unfold initialize. unfold bind at 1. unfold setupMiddleware.
  destruct (run_plan_cases w (middleware_plan c) app)
    as [H | (p1 & s & p2 & e' & Hsplit & Hf & H)]; rewrite H.
  - unfold bind at 1. rewrite (setupPassport_fails w _ e Hp). cbn.
    right. split; [reflexivity|]. intros s Hin. in_cases Hin.
    pose proof (middleware_plan_no_route c) as Hno.
    rewrite forallb_forall in Hno. specialize (Hno _ Hin).
    cbn in Hno. apply negb_true_iff in Hno. exact Hno.
  - cbn. left. intros Hin. in_cases Hin.
    exact (trace_of_no_passport _ Hin).
Qed.

Lemma start_shape (c : config) (w : world) (app : application) :
  match start c w app with
  | (_, _, tr) =>
      exists pre suf logs,
        tr = pre ++ logs /\ undisturbed c = pre ++ suf
        /\ forallb is_log logs = true
  end.
Proof.
  pose proof (follows_start c w app) as H.
  destruct (start c w app) as [[[u|e] app'] tr]; [|exact H].
  subst tr. exists (undisturbed c), [], []. rewrite app_nil_r. auto.
Qed.

(** When nothing fails, [start] returns and the stack is the pipeline,
    the authentication stages, the routes and the error handlers. *)
Lemma start_calm (c : config) (app : application) :
  match start c calm app with
  | (o, app', tr) =>
      o = Returned tt /\ tr = undisturbed c
      /\ stack app' =
         stack app ++ middleware_stages c ++ [Passport; ViewLocals]
         ++ route_stages c ++ stages_of error_plan
      /\ connections app' = connections app
      /\ isShuttingDown app' = isShuttingDown app
  end.
Proof.
  assert (Hplan : forall p a,
             run_plan calm p a = (Returned tt, install p a, trace_of p)).
  { intros p a. destruct (run_plan_cases calm p a)
      as [H | (p1 & s & p2 & e & _ & Hf & _)]; [exact H | discriminate]. }
  unfold start, try_catch, initialize, setupMiddleware, setupPassport,
    passport_initialize, setupRoutes, setupErrorHandling, bind, call, app_use,
    log, emit, modify, try_catch.
  cbn [connect_fails passport_fails build_fails calm].
  repeat first [rewrite Hplan | progress cbv beta iota delta [bind emit modify]].
  split; [reflexivity|]. split.
  { unfold undisturbed, passport_trace.
    repeat first [rewrite <- app_assoc | progress cbn [List.app]]. reflexivity. }
  rewrite !stack_install. cbn [push_stage stack].
  rewrite !stack_install. unfold middleware_stages, route_stages.
  split; [repeat first [rewrite <- app_assoc | progress cbn [List.app]]; reflexivity|].
  repeat match goal with
         | |- context [install ?p ?a] =>
             let H1 := fresh in let H2 := fresh in
             destruct (connections_install p a) as (H1 & H2 & _);
             rewrite ?H1, ?H2; clear H1 H2
         end.
  cbn [push_stage connections isShuttingDown].
  repeat match goal with
         | |- context [install ?p ?a] =>
             let H1 := fresh in let H2 := fresh in
             destruct (connections_install p a) as (H1 & H2 & _);
             rewrite ?H1, ?H2; clear H1 H2
         end.
  auto.
Qed.

(** C2. In every execution of [start], whatever fails: the
    authentication bootstrap is invoked only after the datastore
    connection was attempted and resolved; a route is mounted only after
    every stage of the middleware pipeline has been installed; when the
    datastore connection fails, or the authentication bootstrap is
    invoked and fails, [start] throws that very error to its caller and
    mounts no route (after a failed connection it does nothing but log,
    and leaves the instance as it was). *)
Theorem start_is_ordered_and_aborts (c : config) (w : world) (app : application) :
  match start c w app with
  | (o, app', tr) =>
      (forall pre post,
          tr = pre ++ PassportInitialize :: post ->
          In DatabaseConnect pre /\ connect_fails w = None)
      /\ (forall pre post s,
             tr = pre ++ AppUse s :: post -> is_route s = true ->
             forall m, In m (middleware_stages c) -> In (AppUse m) pre)
      /\ (forall e,
             connect_fails w = Some e ->
             o = Threw e /\ app' = app
             /\ forall ev, In ev tr -> ev = DatabaseConnect \/ is_log ev = true)
      /\ (forall e,
             passport_fails w = Some e -> In PassportInitialize tr ->
             o = Threw e /\ forall s, In (AppUse s) tr -> is_route s = false)
  end.
Proof.
  pose proof (start_shape c w app) as Hshape.
  pose proof (start_connect_fails c w app) as Hconn.
  pose proof (start_passport_fails c w app) as Hpass.
  destruct (start c w app) as [[o app'] tr].
  destruct Hshape as (pre0 & suf & logs & Htr & Hund & Hlogs).
  assert (Hno_pi : forall e, connect_fails w = Some e -> ~ In PassportInitialize tr).
  { intros e He Hin. specialize (Hconn e He).
    injection Hconn as _ _ Ht. rewrite Ht in Hin. in_cases Hin. }
  assert (Hnone : In PassportInitialize tr -> connect_fails w = None).
  { intros Hin. destruct (connect_fails w) as [e|] eqn:E; [|reflexivity].
    exfalso. exact (Hno_pi e eq_refl Hin). }
  split; [|split; [|split]].
  - intros pre post H. split.
    + rewrite Htr in H.
      destruct (split_before_tail is_log pre0 logs pre _ post H Hlogs eq_refl)
        as [post1 Hpre0].
      rewrite Hpre0 in Hund. unfold undisturbed in Hund.
      destruct pre as [|ev pre]; cbn in Hund; inversion Hund. left. reflexivity.
    + apply Hnone. rewrite H. apply in_elt.
  - intros pre post s H Hroute m Hm. rewrite Htr in H.
    destruct (split_before_tail is_log pre0 logs pre _ post H Hlogs)
      as [post1 Hpre0]; [reflexivity|].
    rewrite Hpre0 in Hund. unfold undisturbed in Hund.
    rewrite (app_assoc (trace_of (middleware_plan c))) in Hund.
    rewrite (app_assoc [DatabaseConnect; _]) in Hund.
    rewrite <- (app_assoc pre) in Hund.
    destruct (split_in_clean_prefix is_route_use _ _ _ _ _ Hund) as [pre2 ->].
    + rewrite !forallb_app, middleware_plan_no_route. reflexivity.
    + exact Hroute.
    + rewrite !in_app_iff. left. right. left.
      apply in_trace_of_stage. exact Hm.
  - intros e H. specialize (Hconn e H). injection Hconn as Ho Ha Ht.
    split; [exact Ho|]. split; [exact Ha|].
    intros ev Hin. rewrite Ht in Hin. in_cases Hin; subst; auto.
  - intros e H Hin. specialize (Hpass e (Hnone Hin) H).
    destruct Hpass as [Hn | Hr]; [contradiction | exact Hr].
Qed.

Lemma start_is_ordered_and_aborts_witness :
  connect_fails Samples.no_datastore = Some Samples.connection_refused
  /\ fst (fst (start Samples.dev_config Samples.no_datastore new_application))
     = Threw Samples.connection_refused
  /\ snd (fst (start Samples.dev_config Samples.no_datastore new_application))
     = new_application.
Proof.
  split; [reflexivity|].
  pose proof (start_is_ordered_and_aborts
                Samples.dev_config Samples.no_datastore new_application) as H.
  destruct (start Samples.dev_config Samples.no_datastore new_application)
    as [[o app'] tr].
  destruct H as (_ & _ & Hconnect & _).
  destruct (Hconnect Samples.connection_refused eq_refl) as (Ho & Happ & _).
  split; [exact Ho | exact Happ].
Defined.

End LifecycleFacts.

(** ** [stop] and the connection set *)

Module ShutdownFacts.
Import JS Config Http Pipeline Effects Lifecycle LifecycleFacts.
Local Open Scope effect_scope.

Lemma count_app (p : event -> bool) (a b : list event) :
  count p (a ++ b) = count p a + count p b.
Proof. unfold count. rewrite filter_app, length_app. reflexivity. Qed.

Lemma count_cons (p : event -> bool) (e : event) (t : list event) :
  count p (e :: t) = (if p e then 1 else 0) + count p t.
Proof. unfold count. cbn. destruct (p e); reflexivity. Qed.

Lemma count_nil (p : event -> bool) : count p [] = 0.
Proof. reflexivity. Qed.

Ltac count_events :=
  repeat first [rewrite count_app | rewrite count_cons | rewrite count_nil];
  cbn [is_end_of is_close].

Lemma count_zero (p : event -> bool) (t : list event) :
  forallb (fun e => negb (p e)) t = true -> count p t = 0.
Proof.
  unfold count. induction t as [|e t IH]; cbn; [reflexivity|].
  intros H. apply andb_true_iff in H. destruct H as [He Ht].
  apply negb_true_iff in He. rewrite He. auto.
Qed.

Lemma closes_nothing_count (r : handle) (t : list event) :
  forallb closes_nothing t = true ->
  count (is_end_of r) t = 0 /\ count is_close t = 0.
Proof.
  intros H. split; apply count_zero; rewrite forallb_forall in *;
    intros e He; specialize (H e He); destruct e; try reflexivity; discriminate.
Qed.

Lemma count_ends_le (r : handle) (l : list handle) :
  NoDup l -> count (is_end_of r) (List.map ConnectionEnd l) <= 1.
Proof.
  unfold count. induction l as [|x l IH]; intros Hnd; cbn; [lia|].
  inversion Hnd as [|? ? Hx Hl]; subst.
  destruct (Nat.eqb_spec r x) as [->|Hne]; [|auto].
  cbn. specialize (IH Hl).
  assert (Hz : List.length (List.filter (is_end_of x) (List.map ConnectionEnd l)) = 0).
  { clear IH Hl Hnd. induction l as [|y l IHl]; cbn; [reflexivity|].
    destruct (Nat.eqb_spec x y) as [->|Hxy].
    - exfalso. apply Hx. left. reflexivity.
    - apply IHl. intros Hin. apply Hx. right. exact Hin. }
  lia.
Qed.

Lemma count_close_ends (l : list handle) :
  count is_close (List.map ConnectionEnd l) = 0.
Proof. unfold count. induction l as [|x l IH]; cbn; auto. Qed.

(** The loop of [stop] ends a prefix of the connections, each once, and
    leaves the instance alone. *)
Lemma end_all_spec (w : world) (l : list handle) : forall app,
  exists o l1 l2,
    end_all w l app = (o, app, List.map ConnectionEnd l1) /\ l = l1 ++ l2.
Proof.
  induction l as [|r l IH]; intros app.
  - exists (Returned tt), [], []. auto.
  - cbn [end_all]. unfold bind, call. destruct (end_fails w r) as [e|].
    + exists (Threw e), [r], l. auto.
    + destruct (IH app) as (o & l1 & l2 & H & ->). rewrite H.
      exists o, (r :: l1), l2. auto.
Qed.

Lemma NoDup_prefix (l1 l2 : list handle) : NoDup (l1 ++ l2) -> NoDup l1.
Proof. intros H. apply NoDup_app_remove_r in H. exact H. Qed.

(** A second [stop] only logs. *)
Lemma stop_again (w : world) (app : application) :
  isShuttingDown app = true ->
  stop w app =
  (Returned tt, app, [Log warn (js "Application is already shutting down") None]).
Proof. intros H. unfold stop. rewrite H. reflexivity. Qed.

(** What one effective [stop] does, whether it returns or throws. *)
Lemma stop_first (w : world) (app : application) :
  isShuttingDown app = false ->
  match stop w app with
  | (_, app', tr) =>
      app' = set_shutting_down app
      /\ count is_close tr <= 1
      /\ (NoDup (connections app) -> forall r, count (is_end_of r) tr <= 1)
  end.
Proof.
  intros Hflag. unfold stop. rewrite Hflag.
  unfold bind at 1. cbn [modify]. unfold bind at 1. cbn [log emit].
  unfold try_catch. unfold bind at 1.
  destruct (end_all_spec w (connections app) (set_shutting_down app))
    as (o & l1 & l2 & H & Hsplit).
  rewrite H.
  assert (Hends : NoDup (connections app) ->
                  forall r, count (is_end_of r) (List.map ConnectionEnd l1) <= 1).
  { intros Hnd r. rewrite Hsplit in Hnd. apply NoDup_prefix in Hnd.
    apply count_ends_le. exact Hnd. }
  pose proof (count_close_ends l1) as Hclose.
  destruct o as [u|e].
  - unfold bind, call. destruct (close_fails w) as [e|]; cbn -[count];
      (split; [reflexivity|]); (split; [count_events; lia|]);
      intros Hnd r; specialize (Hends Hnd r); count_events; lia.
  - cbn -[count]. split; [reflexivity|]. split; [count_events; lia|].
    intros Hnd r. specialize (Hends Hnd r). count_events; lia.
Qed.

(** *** [start] leaves the connection set and the flag alone *)

Lemma keeps_ret : keeps (ret tt).
Proof. intros app. cbn. auto. Qed.

Lemma keeps_throw (e : js_error) : keeps (throw e).
Proof. intros app. cbn. auto. Qed.

Lemma keeps_emit (ev : event) : closes_nothing ev = true -> keeps (emit ev).
Proof. intros H app. cbn. rewrite H. auto. Qed.

Lemma keeps_call (ev : event) (fails : option js_error) :
  closes_nothing ev = true -> keeps (call ev fails).
Proof. intros H app. unfold call. destruct fails; cbn; rewrite H; auto. Qed.

Lemma keeps_push (s : stage) : keeps (modify (push_stage s)).
Proof. intros app. cbn. auto. Qed.

Lemma keeps_bind (m : M unit) (k : unit -> M unit) :
  keeps m -> (forall u, keeps (k u)) -> keeps (bind m k).
Proof.
  intros Hm Hk app. unfold bind. specialize (Hm app).
  destruct (m app) as [[[u|e] app1] t1]; [|exact Hm].
  specialize (Hk u app1). destruct (k u app1) as [[o app2] t2].
  destruct Hm as (Hc1 & Hf1 & Hl1 & Ht1). destruct Hk as (Hc2 & Hf2 & Hl2 & Ht2).
  rewrite forallb_app, Ht1, Ht2. repeat split; congruence.
Qed.

Lemma keeps_try_catch (m : M unit) (h : js_error -> M unit) :
  keeps m -> (forall e, keeps (h e)) -> keeps (try_catch m h).
Proof.
  intros Hm Hh app. unfold try_catch. specialize (Hm app).
  destruct (m app) as [[[u|e] app1] t1]; [exact Hm|].
  specialize (Hh e app1). destruct (h e app1) as [[o app2] t2].
  destruct Hm as (Hc1 & Hf1 & Hl1 & Ht1). destruct Hh as (Hc2 & Hf2 & Hl2 & Ht2).
  rewrite forallb_app, Ht1, Ht2. repeat split; congruence.
Qed.

Lemma keeps_rethrow (message : string) (e : js_error) :
  keeps (log_error message e ;; throw e).
Proof.
  apply keeps_bind; [apply keeps_emit; reflexivity | intros _; apply keeps_throw].
Qed.

Lemma keeps_app_use (w : world) (s : stage) : keeps (app_use w s).
Proof.
  unfold app_use. destruct (build_fails w s); [apply keeps_throw|].
  apply keeps_bind; [apply keeps_emit; reflexivity | intros _; apply keeps_push].
Qed.

Lemma keeps_run_plan (w : world) (p : list step) : keeps (run_plan w p).
Proof.
  induction p as [|st p IH]; cbn [run_plan]; [apply keeps_ret|].
  apply keeps_bind; [|intros _; exact IH].
  destruct st as [s| |l m]; cbn [run_step].
  - apply keeps_app_use.
  - apply keeps_bind; [apply keeps_emit; reflexivity|].
    intros _ app. cbn. auto.
  - apply keeps_emit. reflexivity.
Qed.

Lemma keeps_start (c : config) (w : world) : keeps (start c w).
Proof.
  unfold start. apply keeps_try_catch; [|intros e; apply keeps_rethrow].
  apply keeps_bind; [apply keeps_call; reflexivity|]. intros _.
  apply keeps_bind; [apply keeps_emit; reflexivity|]. intros _.
  apply keeps_bind; [|intros _; apply keeps_emit; reflexivity].
  unfold initialize, setupMiddleware, setupPassport, setupRoutes, setupErrorHandling.
  apply keeps_bind; [apply keeps_run_plan|]. intros _.
  apply keeps_bind.
  - apply keeps_bind; [|intros _; apply keeps_app_use].
    apply keeps_try_catch; [|intros e; apply keeps_rethrow].
    apply keeps_bind; [|intros _; apply keeps_emit; reflexivity].
    unfold passport_initialize.
    apply keeps_bind; [apply keeps_call; reflexivity|]. intros _.
    apply keeps_bind; [apply keeps_emit; reflexivity|]. intros _.
    apply keeps_push.
  - intros _. apply keeps_bind; [apply keeps_run_plan|]. intros _.
    apply keeps_run_plan.
Qed.

(** *** The set operations *)

Lemma existsb_eqb_In (r : handle) (l : list handle) :
  existsb (Nat.eqb r) l = true <-> In r l.
Proof.
  rewrite existsb_exists. split.
  - intros (x & Hin & Heq). apply Nat.eqb_eq in Heq. subst. exact Hin.
  - intros Hin. exists r. split; [exact Hin | apply Nat.eqb_refl].
Qed.

Lemma In_set_add (r x : handle) (l : list handle) :
  In x (set_add r l) <-> x = r \/ In x l.
Proof.
  unfold set_add. destruct (existsb (Nat.eqb r) l) eqn:E.
  - apply existsb_eqb_In in E. split; [auto|]. intros [-> | H]; assumption.
  - rewrite in_app_iff. cbn. split; [intros [H | [H | []]]; auto | intros [H | H]; auto].
Qed.

Lemma NoDup_set_add (r : handle) (l : list handle) :
  NoDup l -> NoDup (set_add r l).
Proof.
  intros Hnd. unfold set_add. destruct (existsb (Nat.eqb r) l) eqn:E; [exact Hnd|].
  assert (Hnin : ~ In r l).
  { intros Hin. apply existsb_eqb_In in Hin. congruence. }
  clear E. induction l as [|x l IH]; cbn.
  - constructor; [intros [] | constructor].
  - inversion Hnd as [|? ? Hx Hl]; subst. constructor.
    + rewrite in_app_iff. cbn. intros [H | [H | []]]; [contradiction|].
      apply Hnin. left. symmetry. exact H.
    + apply IH; [exact Hl|]. intros Hin. apply Hnin. right. exact Hin.
Qed.

Lemma length_set_add_fresh (r : handle) (l : list handle) :
  ~ In r l -> List.length (set_add r l) = S (List.length l).
Proof.
  intros Hnin. unfold set_add. destruct (existsb (Nat.eqb r) l) eqn:E.
  - apply existsb_eqb_In in E. contradiction.
  - rewrite length_app. cbn. lia.
Qed.

Lemma In_set_delete (r x : handle) (l : list handle) :
  In x (set_delete r l) <-> In x l /\ x <> r.
Proof.
  unfold set_delete. rewrite filter_In, negb_true_iff, Nat.eqb_neq.
  split; intros [H1 H2]; split; auto.
Qed.

Lemma NoDup_set_delete (r : handle) (l : list handle) :
  NoDup l -> NoDup (set_delete r l).
Proof. apply NoDup_filter. Qed.

Lemma set_delete_absent (r : handle) (l : list handle) :
  ~ In r l -> set_delete r l = l.
Proof.
  intros Hnin. unfold set_delete. induction l as [|x l IH]; cbn; [reflexivity|].
  destruct (Nat.eqb_spec r x) as [->|Hne].
  - exfalso. apply Hnin. left. reflexivity.
  - cbn. f_equal. apply IH. intros Hin. apply Hnin. right. exact Hin.
Qed.

Lemma set_delete_idempotent (r : handle) (l : list handle) :
  set_delete r (set_delete r l) = set_delete r l.
Proof.
  apply set_delete_absent. rewrite In_set_delete. intros [_ H]. apply H. reflexivity.
Qed.

Lemma length_set_delete (r : handle) (l : list handle) :
  NoDup l -> In r l -> S (List.length (set_delete r l)) = List.length l.
Proof.
  unfold set_delete. induction l as [|x l IH]; intros Hnd Hin; [destruct Hin|].
  inversion Hnd as [|? ? Hx Hl]; subst. cbn.
  destruct (Nat.eqb_spec r x) as [->|Hne]; cbn.
  - f_equal. fold (set_delete x l). rewrite (set_delete_absent x l Hx). reflexivity.
  - f_equal. apply IH; [exact Hl|]. destruct Hin as [H | H]; [congruence | exact H].
Qed.

(** The [finish] listeners of a response delete it from the set, when
    there are any. *)
Lemma fire_spec (r : handle) (ls : list handle) : forall app,
  match fire r ls app with
  | (o, app', tr) =>
      o = Returned tt /\ tr = []
      /\ connections app' =
         (if existsb (Nat.eqb r) ls
          then set_delete r (connections app) else connections app)
      /\ isShuttingDown app' = isShuttingDown app
      /\ finish_listeners app' = finish_listeners app
  end.
Proof.
  induction ls as [|x ls IH]; intros app; cbn [fire existsb].
  - cbn. auto.
  - unfold bind. destruct (Nat.eqb r x); cbn [on_finish modify ret orb].
    + specialize (IH (set_connections (set_delete r (connections app)) app)).
      destruct (fire r ls _) as [[o app'] tr].
      destruct IH as (-> & -> & Hc & Hf & Hl).
      cbn [set_connections connections isShuttingDown finish_listeners] in Hc, Hf, Hl.
      rewrite Hc, Hf, Hl. rewrite set_delete_idempotent.
      destruct (existsb (Nat.eqb r) ls); auto.
    + specialize (IH app). destruct (fire r ls app) as [[o app'] tr].
      destruct IH as (-> & -> & Hc & Hf & Hl). auto.
Qed.

(** *** One action *)

Lemma perform_spec (c : config) (a : action) (app : application) :
  match perform c a app with
  | (_, app', tr) =>
      connections app' = next_connections a app
      /\ finish_listeners app' = next_listeners a app
      /\ (isShuttingDown app = true ->
          isShuttingDown app' = true /\ forallb closes_nothing tr = true)
      /\ (isShuttingDown app' = false -> forallb closes_nothing tr = true)
      /\ count is_close tr <= 1
      /\ (NoDup (connections app) -> forall r, count (is_end_of r) tr <= 1)
  end.
Proof.
  assert (Hquiet : forall tr, forallb closes_nothing tr = true ->
             count is_close tr <= 1 /\ forall r, count (is_end_of r) tr <= 1).
  { intros tr Ht. split; [|intros r];
      destruct (closes_nothing_count 0 tr Ht) as [_ H0];
      [lia | destruct (closes_nothing_count r tr Ht) as [H1 _]; lia]. }
  destruct a as [w|w|r|r]; cbn [perform next_connections next_listeners].
  - pose proof (keeps_start c w app) as H.
    destruct (start c w app) as [[o app'] tr].
    destruct H as (Hc & Hf & Hl & Ht). rewrite Hf.
    destruct (Hquiet tr Ht) as [Hq1 Hq2]. repeat split; auto.
  - destruct (isShuttingDown app) eqn:Hflag.
    + rewrite (stop_again w app Hflag). rewrite Hflag.
      destruct (Hquiet _ (eq_refl : forallb closes_nothing
        [Log warn (js "Application is already shutting down") None] = true))
        as [Hq1 Hq2].
      repeat split; auto.
    + pose proof (stop_first w app Hflag) as H.
      destruct (stop w app) as [[o app'] tr].
      destruct H as (-> & Hclose & Hends).
      cbn [set_shutting_down connections finish_listeners isShuttingDown].
      repeat split; auto; discriminate.
  - cbn [track modify add_finish_listener set_connections connections
           finish_listeners isShuttingDown].
    destruct (Hquiet [] eq_refl) as [Hq1 Hq2]. repeat split; auto.
  - pose proof (fire_spec r (finish_listeners app) app) as H.
    unfold finish. destruct (fire r (finish_listeners app) app) as [[o app'] tr].
    destruct H as (-> & -> & Hc & Hf & Hl). rewrite Hf.
    destruct (Hquiet [] eq_refl) as [Hq1 Hq2]. repeat split; auto.
Qed.

(** *** Sequences of actions *)

Lemma NoDup_next_connections (a : action) (app : application) :
  NoDup (connections app) -> NoDup (next_connections a app).
Proof.
  intros H. destruct a as [w|w|r|r]; cbn [next_connections]; auto.
  - apply NoDup_set_add. exact H.
  - destruct (existsb _ _); [apply NoDup_set_delete|]; exact H.
Qed.

Lemma incl_next (a : action) (app : application) :
  incl (connections app) (finish_listeners app) ->
  incl (next_connections a app) (next_listeners a app).
Proof.
  intros H x. destruct a as [w|w|r|r]; cbn [next_connections next_listeners]; auto.
  - rewrite In_set_add. intros [-> | Hx]; [left; reflexivity | right; auto].
  - destruct (existsb _ _); [|auto]. rewrite In_set_delete. intros [Hx _]. auto.
Qed.


Lemma run_flag_and_counts (c : config) (acts : list action) : forall app,
  match run c acts app with
  | (app', tr) =>
      (isShuttingDown app = true ->
       isShuttingDown app' = true /\ forallb closes_nothing tr = true)
      /\ count is_close tr <= 1
      /\ (NoDup (connections app) ->
          NoDup (connections app') /\ forall r, count (is_end_of r) tr <= 1)
  end.
Proof.
  induction acts as [|a rest IH]; intros app; cbn [run].
  - repeat split; auto.
  - pose proof (perform_spec c a app) as Hp.
    destruct (perform c a app) as [[o app1] t1].
    destruct Hp as (Hc & Hl & Hflag & Hquiet & Hclose & Hends).
    specialize (IH app1). destruct (run c rest app1) as [app2 t2].
    destruct IH as (IHflag & IHclose & IHends).
    assert (Hsum : forall p,
               count p t1 <= 1 -> count p t2 <= 1 ->
               (forallb closes_nothing t1 = true -> count p t1 = 0) ->
               (forallb closes_nothing t2 = true -> count p t2 = 0) ->
               count p (t1 ++ t2) <= 1).
    { intros p H1 H2 Hz1 Hz2. rewrite count_app.
      destruct (isShuttingDown app1) eqn:E.
      - destruct (IHflag eq_refl) as [_ Hq]. rewrite (Hz2 Hq). lia.
      - rewrite (Hz1 (Hquiet eq_refl)). lia. }
    split; [|split].
    + intros Htrue. destruct (Hflag Htrue) as [H1 Hq1].
      destruct (IHflag H1) as [H2 Hq2]. rewrite forallb_app, Hq1, Hq2. auto.
    + apply Hsum; auto; intros Hq; apply (closes_nothing_count 0 _ Hq).
    + intros Hnd. pose proof (NoDup_next_connections a app Hnd) as Hnd1.
      rewrite <- Hc in Hnd1. destruct (IHends Hnd1) as [Hnd2 IHr].
      split; [exact Hnd2|]. intros r.
      apply Hsum; auto; intros Hq; apply (closes_nothing_count r _ Hq).
Qed.




Lemma run_count (c : config) (acts : list action) : forall app seen open,
  NoDup (connections app) ->
  (forall r, In r (connections app) <-> In r open) ->
  incl open seen ->
  incl (connections app) (finish_listeners app) ->
  well_formed seen open acts ->
  match run c acts app with
  | (app', _) =>
      List.length (connections app') + finished acts
      = List.length (connections app) + started acts
  end.
Proof.
  induction acts as [|a rest IH]; intros app seen open Hnd Hopen Hseen Hincl Hwf;
    cbn [run].
  - reflexivity.
  - pose proof (perform_spec c a app) as Hp.
    destruct (perform c a app) as [[o app1] t1].
    destruct Hp as (Hc & Hl & _).
    pose proof (NoDup_next_connections a app Hnd) as Hnd1.
    pose proof (incl_next a app Hincl) as Hincl1.
    rewrite <- Hc in Hnd1. rewrite <- Hc, <- Hl in Hincl1.
    destruct a as [w|w|r|r]; cbn [well_formed next_connections] in Hwf, Hc.
    + specialize (IH app1 seen open Hnd1). rewrite Hc in IH.
      specialize (IH Hopen Hseen). rewrite <- Hc in IH. specialize (IH Hincl1 Hwf).
      destruct (run c rest app1) as [app2 t2]. rewrite Hc in IH. exact IH.
    + specialize (IH app1 seen open Hnd1). rewrite Hc in IH.
      specialize (IH Hopen Hseen). rewrite <- Hc in IH. specialize (IH Hincl1 Hwf).
      destruct (run c rest app1) as [app2 t2]. rewrite Hc in IH. exact IH.
    + destruct Hwf as [Hfresh Hwf].
      assert (Hnin : ~ In r (connections app)).
      { intros Hin. apply Hfresh, Hseen, Hopen. exact Hin. }
      specialize (IH app1 (r :: seen) (r :: open) Hnd1).
      assert (H1 : forall x, In x (connections app1) <-> In x (r :: open)).
      { intros x. rewrite Hc, In_set_add. cbn. rewrite Hopen.
        split; (intros [H | H]; [left; congruence | right; exact H]). }
      assert (H2 : incl (r :: open) (r :: seen)).
      { intros x [-> | Hx]; [left; reflexivity | right; auto]. }
      specialize (IH H1 H2 Hincl1 Hwf).
      destruct (run c rest app1) as [app2 t2].
      rewrite Hc, (length_set_add_fresh r _ Hnin) in IH.
      unfold started, finished in *. cbn. lia.
    + destruct Hwf as [Hin Hwf].
      assert (Hconn : In r (connections app)) by (apply Hopen; exact Hin).
      assert (Hls : existsb (Nat.eqb r) (finish_listeners app) = true).
      { apply existsb_eqb_In. apply Hincl. exact Hconn. }
      rewrite Hls in Hc.
      specialize (IH app1 seen (List.remove Nat.eq_dec r open) Hnd1).
      assert (H1 : forall x, In x (connections app1)
                             <-> In x (List.remove Nat.eq_dec r open)).
      { intros x. rewrite Hc, In_set_delete, Hopen. split.
        - intros [Hx Hne]. apply in_in_remove; assumption.
        - apply in_remove. }
      assert (H2 : incl (List.remove Nat.eq_dec r open) seen).
      { intros x Hx. apply in_remove in Hx. destruct Hx as [Hx _]. auto. }
      specialize (IH H1 H2 Hincl1 Hwf).
      destruct (run c rest app1) as [app2 t2].
      rewrite Hc in IH. pose proof (length_set_delete r _ Hnd Hconn) as Hlen.
      unfold started, finished in *. cbn. lia.
Qed.

(** Two [stop] calls in a row with two open connections: one shutdown,
    one logged no-op. *)
Example stop_twice :
  run Samples.dev_config
      [RequestStart 1; RequestStart 2; CallStop calm; CallStop calm]
      new_application
  = ({| stack := []; trust_proxy := false; connections := [1; 2];
        isShuttingDown := true; finish_listeners := [2; 1] |},
     [Log info (js "Stopping application gracefully") None;
      ConnectionEnd 1; ConnectionEnd 2; DatabaseClose;
      Log info (js "Database connection closed") None;
      Log info (js "Application stopped successfully") None;
      Log warn (js "Application is already shutting down") None]).
Proof. reflexivity. Qed.

(** C3. A [stop] on an instance that is already shutting down returns
    without touching the instance and emits one warning, nothing else;
    every [stop], whether it returns or throws, leaves the shutdown flag
    set, so the [stop] after it is such a no-op; no sequence of [start],
    [stop], request starts and request finishes resets the flag once it
    is set; and over any such sequence the datastore is closed at most
    once. *)
Theorem stop_is_idempotent (c : config) :
  (forall w app,
      isShuttingDown app = true ->
      stop w app =
      (Returned tt, app,
       [Log warn (js "Application is already shutting down") None]))
  /\ (forall w1 w2 app,
         match stop w1 app with
         | (_, app1, _) =>
             isShuttingDown app1 = true
             /\ stop w2 app1 =
                (Returned tt, app1,
                 [Log warn (js "Application is already shutting down") None])
         end)
  /\ (forall acts app,
         match run c acts app with
         | (app', tr) =>
             (isShuttingDown app = true -> isShuttingDown app' = true)
             /\ count is_close tr <= 1
         end).
Proof.
  assert (Hset : forall w app,
             match stop w app with
             | (_, app', _) => isShuttingDown app' = true
             end).
  { intros w app. destruct (isShuttingDown app) eqn:Hflag.
    - rewrite (stop_again w app Hflag). exact Hflag.
    - pose proof (stop_first w app Hflag) as H.
      destruct (stop w app) as [[o app'] tr]. destruct H as (-> & _). reflexivity. }
  split; [|split].
  - intros w app H. apply stop_again. exact H.
  - intros w1 w2 app. specialize (Hset w1 app).
    destruct (stop w1 app) as [[o app1] tr].
    split; [exact Hset | apply stop_again; exact Hset].
  - intros acts app. pose proof (run_flag_and_counts c acts app) as H.
    destruct (run c acts app) as [app' tr]. destruct H as (Hflag & Hclose & _).
    split; [|exact Hclose]. intros Htrue. apply Hflag. exact Htrue.
Qed.

Lemma stop_is_idempotent_witness :
  isShuttingDown
    (fst (run Samples.dev_config
              [CallStop Samples.close_breaks; CallStop calm; CallStop calm]
              new_application)) = true
  /\ count is_close
       (snd (run Samples.dev_config
                 [CallStop Samples.close_breaks; CallStop calm; CallStop calm]
                 new_application)) <= 1.
Proof.
  destruct (stop_is_idempotent Samples.dev_config) as (_ & _ & Hrun).
  specialize (Hrun [CallStop Samples.close_breaks; CallStop calm; CallStop calm]
                   new_application).
  destruct (run Samples.dev_config
                [CallStop Samples.close_breaks; CallStop calm; CallStop calm]
                new_application) as [app' tr] eqn:E.
  destruct Hrun as [_ Hclose]. split; [|exact Hclose].
  vm_compute in E. inversion E. reflexivity.
Defined.

(** A well-formed history: two requests, the first of which finishes. *)
Example well_formed_history :
  well_formed [] [] [RequestStart 1; RequestStart 2; RequestFinish 1].
Proof. cbn. intuition discriminate. Qed.

End ShutdownFacts.

(** ** Routes *)

Module RoutesFacts.
Import JS Config Cors Http BodyParser Pipeline Routes Samples.

(** *** Printing a number *)

(** The value of a string of decimal digits. *)
Lemma decimal_value_snoc (d : jsstring) (x : code_unit) :
  decimal_value (d ++ [x]) = (10 * decimal_value d + (x - 48))%N.
Proof. unfold decimal_value. rewrite fold_left_app. reflexivity. Qed.

Lemma digit_of_small (m : N) : (m < 10)%N -> Regex.digit (48 + m)%N = true.
Proof.
  intros H. unfold Regex.digit. apply andb_true_iff. split; apply N.leb_le; lia.
Qed.

Lemma div_mod_10 (n : N) :
  exists q m, (n / 10 = q /\ n mod 10 = m /\ n = 10 * q + m /\ m < 10)%N.
Proof.
  exists (n / 10)%N, (n mod 10)%N. repeat split.
  - apply N.Div0.div_mod.
  - apply N.mod_upper_bound. discriminate.
Qed.

Lemma digits_fuel_spec (fuel : nat) : forall n acc,
  (n < 2 ^ N.of_nat (S fuel))%N ->
  exists d,
    digits_fuel (S fuel) n acc = d ++ acc
    /\ d <> [] /\ Forall (fun ch => Regex.digit ch = true) d
    /\ decimal_value d = n.
Proof.
  assert (Hsmall : forall n acc fuel', (n < 10)%N ->
             exists d, digits_fuel (S fuel') n acc = d ++ acc
                       /\ d <> [] /\ Forall (fun ch => Regex.digit ch = true) d
                       /\ decimal_value d = n).
  { intros n acc fuel' Hlt. exists [(48 + n)%N]. cbn [digits_fuel].
    apply N.ltb_lt in Hlt. rewrite Hlt. apply N.ltb_lt in Hlt.
    rewrite (N.mod_small n 10 Hlt).
    split; [reflexivity|]. split; [discriminate|]. split.
    - constructor; [apply digit_of_small; exact Hlt | constructor].
    - unfold decimal_value. cbn [fold_left]. lia. }
  induction fuel as [|fuel IH]; intros n acc Hn.
  - apply Hsmall. change (2 ^ N.of_nat 1)%N with 2%N in Hn. lia.
  - destruct (N.ltb_spec n 10) as [Hlt | Hbig]; [apply Hsmall; exact Hlt|].
    cbn [digits_fuel]. apply N.ltb_ge in Hbig. rewrite Hbig. apply N.ltb_ge in Hbig.
    destruct (div_mod_10 n) as (q & m & Hq & Hm & Hn10 & Hm10).
    rewrite Hq, Hm.
    assert (Hpow : (2 ^ N.of_nat (S (S fuel)) = 2 * 2 ^ N.of_nat (S fuel))%N).
    { rewrite (Nat2N.inj_succ (S fuel)), N.pow_succ_r'. reflexivity. }
    assert (Hdiv : (q < 2 ^ N.of_nat (S fuel))%N) by lia.
    destruct (IH q ((48 + m)%N :: acc) Hdiv) as (d & Heq & Hne & Hall & Hval).
    exists (d ++ [(48 + m)%N]). rewrite <- app_assoc. cbn [List.app].
    split; [exact Heq|]. split; [destruct d; discriminate|]. split.
    + apply Forall_app. split; [exact Hall|].
      constructor; [apply digit_of_small; exact Hm10 | constructor].
    + rewrite decimal_value_snoc, Hval. lia.
Qed.

(** [number_to_string] prints the decimal digits of its argument. *)
Lemma number_to_string_spec (n : N) :
  number_to_string n <> []
  /\ Forall (fun ch => Regex.digit ch = true) (number_to_string n)
  /\ decimal_value (number_to_string n) = n.
Proof.
  unfold number_to_string.
  assert (Hn : (n < 2 ^ N.of_nat (S (N.to_nat (N.log2 n))))%N).
  { rewrite Nat2N.inj_succ, N2Nat.id.
    destruct (N.eq_dec n 0) as [-> | Hpos]; [reflexivity|].
    apply N.log2_spec. lia. }
  destruct (digits_fuel_spec (N.to_nat (N.log2 n)) n [] Hn)
    as (d & Heq & Hne & Hall & Hval).
  rewrite Heq, app_nil_r. auto.
Qed.

Example prints_70 : number_to_string 70 = js "70".
Proof. reflexivity. Qed.

Example prints_0 : number_to_string 0 = js "0".
Proof. reflexivity. Qed.

(** The megabyte figure is the byte count divided by 2^20 and rounded to
    the nearest integer. *)
Lemma round_megabytes_spec (bytes : N) :
  (1048576 * round_megabytes bytes <= bytes + 524288
   < 1048576 * (round_megabytes bytes + 1))%N.
Proof.
  unfold round_megabytes.
  pose proof (N.Div0.div_mod (bytes + 524288) 1048576) as Hdm.
  assert (Hlt : ((bytes + 524288) mod 1048576 < 1048576)%N)
    by (apply N.mod_upper_bound; discriminate).
  revert Hdm Hlt.
  generalize ((bytes + 524288) / 1048576)%N ((bytes + 524288) mod 1048576)%N.
  intros q m Hdm Hlt. lia.
Qed.

Example megabytes_of_rss : megabytes 73400320 = js "70MB".
Proof. reflexivity. Qed.

Example megabytes_rounds_half_up : megabytes 1572864 = js "2MB".
Proof. reflexivity. Qed.

(** *** The stack of a started application *)

Lemma served_stack_at_health (c : config) :
  served_stack c =
  before_health c
  ++ HealthRoute
  :: SessionCheckRoute
  :: when (is_development c) [SessionDebugRoute]
  ++ [RootRoute; CatchAll; NotFoundHandler; ErrorHandler].
Proof.
  unfold served_stack, before_health, route_stages, routes_plan, when.
  destruct (is_development c); cbn [stages_of List.app error_plan];
    rewrite <- !app_assoc; reflexivity.
Qed.

Lemma served_stack_at_root (c : config) :
  served_stack c =
  before_root c ++ [RootRoute; CatchAll; NotFoundHandler; ErrorHandler].
Proof.
  unfold served_stack, before_root, route_stages, routes_plan, when.
  destruct (is_development c); cbn [stages_of List.app error_plan];
    rewrite <- !app_assoc; reflexivity.
Qed.

Lemma served_stack_at_catch_all (c : config) :
  served_stack c =
  before_catch_all c ++ [CatchAll; NotFoundHandler; ErrorHandler].
Proof.
  rewrite served_stack_at_root. unfold before_catch_all.
  rewrite <- !app_assoc. reflexivity.
Qed.

(** *** Walking the stack *)

Section Walk.
Variable x : express.
Variable c : config.
Variable p : runtime.

Lemma dispatch_after (layers rest : list stage) : forall req req',
  falls_through x c p layers req = Some req' ->
  dispatch x c p (layers ++ rest) None req = dispatch x c p rest None req'.
Proof.
  induction layers as [|s layers IH]; intros req req' H; cbn [falls_through] in H.
  - inversion H. reflexivity.
  - cbn [List.app dispatch]. destruct (is_error_handler s); [apply IH; exact H|].
    destruct (run_layer x c p s req) as [r|e r|resp];
      [apply IH; exact H | discriminate | discriminate].
Qed.

Lemma parser_keeps_url (response : Type) accepts l verify valid parsed
      (req r : request) :
  (forall q buf v, verify = Some v -> originalUrl (v q buf) = originalUrl q) ->
  @BodyParser.parser (bytes_parse x) response accepts l verify valid parsed req
  = Next r ->
  originalUrl r = originalUrl req.
Proof.
  intros Hv. unfold BodyParser.parser, BodyParser.read, default_body.
  destruct (body_read req); [intros H; inversion H; reflexivity|].
  assert (Hd : originalUrl
                 match body req with Some _ => req | None => set_body req EmptyObject end
               = originalUrl req) by (destruct (body req); reflexivity).
  destruct (negb (has_body _)); [intros H; inversion H; exact Hd|].
  destruct (negb (accepts _)); [intros H; inversion H; exact Hd|].
  destruct (negb (within _ _ _)); [discriminate|].
  destruct (valid _); [|discriminate].
  intros H. inversion H. cbn [set_body originalUrl].
  destruct verify as [v|]; [rewrite (Hv _ _ v eq_refl)|]; exact Hd.
Qed.

Lemma run_layer_keeps_url (s : stage) (req r : request) :
  (forall l v, s = JsonBody l (Some v) ->
               forall q buf, originalUrl (v q buf) = originalUrl q) ->
  run_layer x c p s req = Next r -> originalUrl r = originalUrl req.
Proof.
  intros Hv.
  assert (Hreply : forall (rep : reply) q,
             of_reply rep q = Next r -> originalUrl r = originalUrl q).
  { intros rep q H. destruct rep; inversion H. reflexivity. }
  destruct s; cbn [run_layer]; unfold mounted, get_route, catch_all;
    try (intros H; inversion H; reflexivity);
    try (apply Hreply).
  - destruct (origin0 (origin req)); [apply Hreply | discriminate].
  - unfold BodyParser.json. apply parser_keeps_url.
    intros q buf v0 Hsome. subst verify. apply (Hv limit v0 eq_refl).
  - unfold BodyParser.urlencoded. apply parser_keeps_url. discriminate.
  - destruct (mount_match x mount (path req)); [apply Hreply|].
    intros H; inversion H; reflexivity.
  - destruct (mount_match x mount (path req)); [apply Hreply|].
    intros H; inversion H; reflexivity.
  - destruct (mount_match x _ (path req)); [apply Hreply|].
    intros H; inversion H; reflexivity.
  - destruct (is_get req && _); [discriminate|].
    intros H; inversion H; reflexivity.
  - destruct (is_get req && _); [apply Hreply|].
    intros H; inversion H; reflexivity.
  - destruct (is_get req && _); [apply Hreply|].
    intros H; inversion H; reflexivity.
  - destruct (is_get req && _); [discriminate|].
    intros H; inversion H; reflexivity.
Qed.

End Walk.

Lemma stages_of_app (a b : list step) :
  stages_of (a ++ b) = stages_of a ++ stages_of b.
Proof.
  induction a as [|st a IH]; [reflexivity|].
  destruct st; cbn [List.app stages_of]; rewrite IH; reflexivity.
Qed.

(** Case analysis on the membership of a stage in a plan. *)
Ltac stage_cases H :=
  lazymatch type of H with
  | In _ (_ ++ _) =>
      apply in_app_or in H; destruct H as [H | H]; [stage_cases H | stage_cases H]
  | In _ (_ :: _) => destruct H as [H | H]; [try discriminate | stage_cases H]
  | In _ [] => destruct H
  | In _ (stages_of (_ ++ _)) => rewrite stages_of_app in H; stage_cases H
  | In _ (stages_of (when ?b _)) =>
      destruct b eqn:?; cbn [when stages_of] in H; stage_cases H
  | In _ (stages_of (if ?b then _ else _)) => destruct b eqn:?; stage_cases H
  | In _ (stages_of (match ?o with Some _ => _ | None => _ end)) =>
      destruct o eqn:?; stage_cases H
  | In _ (stages_of (_ :: _)) => cbn [stages_of] in H; stage_cases H
  | In _ (stages_of []) => destruct H
  | In _ (when ?b _) => destruct b eqn:?; cbn [when] in H; stage_cases H
  | _ => idtac
  end.

(** The only [verify] callback in the stack is the raw-body capture. *)
Lemma verify_in_stack (c : config) (l : limit_setting) (v : verify_callback) :
  In (JsonBody l (Some v)) (before_catch_all c) -> v = capture_raw_body.
Proof.
  unfold before_catch_all, before_root, middleware_stages, middleware_plan.
  intros H. stage_cases H; inversion H; reflexivity.
Qed.

Lemma falls_through_keeps_url (x : express) (c : config) (p : runtime)
      (layers : list stage) : forall req req',
  (forall l v, In (JsonBody l (Some v)) layers -> v = capture_raw_body) ->
  falls_through x c p layers req = Some req' ->
  originalUrl req' = originalUrl req.
Proof.
  induction layers as [|s layers IH]; intros req req' Hv H; cbn [falls_through] in H.
  - inversion H. reflexivity.
  - assert (Hv' : forall l v, In (JsonBody l (Some v)) layers -> v = capture_raw_body).
    { intros l v Hin. apply (Hv l v). right. exact Hin. }
    assert (Hstep : forall r, run_layer x c p s req = Next r ->
                              falls_through x c p layers r = Some req' ->
                              originalUrl req' = originalUrl req).
    { intros r Hr Hrest. rewrite (IH r req' Hv' Hrest).
      apply (run_layer_keeps_url x c p s req r); [|exact Hr].
      intros l v -> q buf. rewrite (Hv l v (or_introl eq_refl)). reflexivity. }
    destruct (is_error_handler s); [apply (IH req req' Hv' H)|].
    destruct (run_layer x c p s req) as [r|e r|resp] eqn:E;
      [exact (Hstep r eq_refl H) | discriminate | discriminate].
Qed.

(** *** The utility routes *)

Lemma not_found_message_contains (req : request) :
  contains (not_found_message req) (originalUrl req).
Proof. exists (js "Can't find "), (js " on this server!"). reflexivity. Qed.

(** C6. A request that every layer before the catch-all route passes on
    (no middleware answers or fails it, no route matches it) is turned
    by the catch-all into an [AppError] with status 404 whose message is
    [Can't find <originalUrl> on this server!], which contains the URL
    the request was made for, and Express hands that error to the
    terminal error handler. *)
Theorem unmatched_request_is_not_found
        (x : express) (c : config) (p : runtime) (req req' : request) :
  falls_through x c p (before_catch_all c) req = Some req' ->
  dispatch x c p (served_stack c) None req
  = ToErrorHandler
      (AppError (js "Can't find " ++ originalUrl req ++ js " on this server!") 404)
      req'
  /\ contains (js "Can't find " ++ originalUrl req ++ js " on this server!")
               (originalUrl req).
Proof.
  intros H. split; [|apply not_found_message_contains].
  rewrite served_stack_at_catch_all.
  rewrite (dispatch_after x c p _ _ req req' H).
  cbn [dispatch run_layer catch_all is_error_handler]. unfold not_found_message.
  rewrite (falls_through_keeps_url x c p _ req req' (verify_in_stack c) H).
  reflexivity.
Qed.

Lemma unmatched_request_is_not_found_witness :
  falls_through plain_express dev_config (a_runtime true)
                (before_catch_all dev_config) (get "/does-not-exist")
  = Some (set_body (get "/does-not-exist") EmptyObject)
  /\ dispatch plain_express dev_config (a_runtime true)
              (served_stack dev_config) None (get "/does-not-exist")
     = ToErrorHandler
         (AppError (js "Can't find /does-not-exist on this server!") 404)
         (set_body (get "/does-not-exist") EmptyObject).
Proof.
  split; [vm_compute; reflexivity|].
  apply (unmatched_request_is_not_found
           plain_express dev_config (a_runtime true)
           (get "/does-not-exist") (set_body (get "/does-not-exist") EmptyObject)).
  vm_compute; reflexivity.
Defined.

(** C5. A GET of [/health] that reaches the health route is answered
    with status 200 and body status [healthy] when the datastore reports
    ready, and with 503 and [unhealthy] when it does not; in both cases
    the body carries the configured service name, the version (or
    [3.0.0]), the environment, the process uptime, and [rss],
    [heapTotal] and [heapUsed] as the byte counts divided by 2^20,
    rounded to the nearest integer and followed by [MB]. *)
Theorem health_reports_readiness
        (x : express) (c : config) (p : runtime) (req req' : request) :
  falls_through x c p (before_health c) req = Some req' ->
  is_get req' = true ->
  route_match x (js "/health") (path req') = true ->
  exists resp b,
    dispatch x c p (served_stack c) None req = Answered resp
    /\ json resp = HealthBody b
    /\ (ready (database p) = true ->
        statusCode resp = 200%N /\ health_status b = js "healthy")
    /\ (ready (database p) = false ->
        statusCode resp = 503%N /\ health_status b = js "unhealthy")
    /\ service_name (health_service b) = name (app c)
    /\ service_version (health_service b) = or_default (version (app c)) (js "3.0.0")
    /\ service_environment (health_service b) = env (app c)
    /\ service_uptime (health_service b) = uptime p
    /\ memory_rss (health_memory b)
       = number_to_string (round_megabytes (rss (memory p))) ++ js "MB"
    /\ memory_heapTotal (health_memory b)
       = number_to_string (round_megabytes (heapTotal (memory p))) ++ js "MB"
    /\ memory_heapUsed (health_memory b)
       = number_to_string (round_megabytes (heapUsed (memory p))) ++ js "MB".
Proof.
  intros Hfall Hget Hmatch.
  exists (health c p req').
  rewrite served_stack_at_health, (dispatch_after x c p _ _ req req' Hfall).
  cbn [dispatch run_layer is_error_handler]. unfold get_route.
  rewrite Hget, Hmatch. cbn [andb].
  unfold health. cbn [json statusCode]. eexists. split; [reflexivity|].
  split; [reflexivity|].
  cbn [health_status health_service health_memory service_name service_version
       service_environment service_uptime memory_rss memory_heapTotal memory_heapUsed].
  split; [intros ->; auto|]. split; [intros ->; auto|].
  unfold megabytes. repeat split; reflexivity.
Qed.

Lemma health_reports_readiness_witness :
  exists resp b,
    dispatch plain_express dev_config (a_runtime false)
             (served_stack dev_config) None (get "/health") = Answered resp
    /\ json resp = HealthBody b
    /\ statusCode resp = 503%N
    /\ health_status b = js "unhealthy"
    /\ memory_rss (health_memory b) = js "70MB".
Proof.
  destruct (health_reports_readiness
              plain_express dev_config (a_runtime false)
              (get "/health") (set_body (get "/health") EmptyObject))
    as (resp & b & Hd & Hj & _ & Hdown & _ & _ & _ & _ & Hrss & _).
  - vm_compute; reflexivity.
  - reflexivity.
  - reflexivity.
  - exists resp, b. destruct (Hdown eq_refl) as [Hs Hb].
    repeat split; assumption.
Defined.

(** C10. A GET of [/] that reaches the root route is answered with
    status 200 and body status [operational]; the answer is the same
    whatever the datastore reports and whatever the process state and
    the request are. *)
Theorem root_is_operational
        (x : express) (c : config) (p : runtime) (req req' : request) :
  falls_through x c p (before_root c) req = Some req' ->
  is_get req' = true ->
  route_match x (js "/") (path req') = true ->
  exists resp b,
    dispatch x c p (served_stack c) None req = Answered resp
    /\ statusCode resp = 200%N
    /\ json resp = RootBody b
    /\ root_status b = js "operational"
    /\ forall p' req'', root c p' req'' = resp.
Proof.
  intros Hfall Hget Hmatch.
  exists (root c p req').
  rewrite served_stack_at_root, (dispatch_after x c p _ _ req req' Hfall).
  cbn [dispatch run_layer is_error_handler]. unfold get_route.
  rewrite Hget, Hmatch. cbn [andb].
  unfold root. cbn [json statusCode]. eexists.
  repeat split; reflexivity.
Qed.

Lemma root_is_operational_witness :
  exists resp b,
    dispatch plain_express dev_config (a_runtime false)
             (served_stack dev_config) None (get "/") = Answered resp
    /\ statusCode resp = 200%N
    /\ json resp = RootBody b
    /\ root_status b = js "operational".
Proof.
  destruct (root_is_operational
              plain_express dev_config (a_runtime false)
              (get "/") (set_body (get "/") EmptyObject))
    as (resp & b & Hd & Hs & Hj & Ho & _).
  - vm_compute; reflexivity.
  - reflexivity.
  - reflexivity.
  - exists resp, b. auto.
Defined.

End RoutesFacts.

(** ** The middleware pipeline *)

Module PipelineFacts.
Import JS Config Cors Http BodyParser Pipeline Routes Samples RoutesFacts.

Lemma origin_check_without_cors (stages : list stage) (o : option jsstring) :
  (forall f, ~ In (CorsMw f) stages) -> origin_check stages o = None.
Proof.
  induction stages as [|s stages IH]; intros H; cbn [origin_check]; [reflexivity|].
  assert (IH' : origin_check stages o = None).
  { apply IH. intros f Hin. apply (H f). right. exact Hin. }
  destruct s; try exact IH'.
  exfalso. apply (H origin0). left. reflexivity.
Qed.

(** With CORS enabled the origin check of the stack is the origin
    predicate. *)
Lemma origin_check_enabled (c : config) (o : option jsstring) :
  cors_enabled (cors (security c)) = true ->
  origin_check (served_stack c) o =
  match origin_callback c o with
  | Allowed => None
  | Failed message => Some message
  end.
Proof.
  intros H. unfold served_stack, middleware_stages, middleware_plan, route_stages,
    routes_plan, when. rewrite H.
  destruct (is_production c), (helmet_enabled (security c)),
    (sanitize_enabled (security c)), (logging_enabled c), (is_development c);
    destruct (idleTimeout (session c)) as [ms|];
    try destruct (truthy_number ms);
    cbn [stages_of List.app origin_check error_plan];
    destruct (origin_callback c o); reflexivity.
Qed.

(** With an error pending, Express skips to the error handler. *)
Lemma dispatch_pending (x : express) (c : config) (p : runtime)
      (layers : list stage) (e : js_error) (req : request) :
  existsb is_error_handler layers = true ->
  dispatch x c p layers (Some e) req = ToErrorHandler e req.
Proof.
  induction layers as [|s layers IH]; cbn [existsb dispatch]; [discriminate|].
  destruct (is_error_handler s); [reflexivity|]. exact IH.
Qed.

Lemma dispatch_step (x : express) (c : config) (p : runtime)
      (s : stage) (rest : list stage) (req : request) :
  dispatch x c p (s :: rest) None req =
  if is_error_handler s then dispatch x c p rest None req
  else match run_layer x c p s req with
       | Next r => dispatch x c p rest None r
       | NextError e r => dispatch x c p rest (Some e) r
       | Respond resp => Answered resp
       end.
Proof. reflexivity. Qed.

(** With CORS enabled, a request whose origin the predicate refuses
    ends at the error handler with the predicate's error. *)
Lemma refused_origin_fails_the_request
      (x : express) (c : config) (p : runtime) (req : request)
      (message : jsstring) :
  cors_enabled (cors (security c)) = true ->
  foreign x (Helmet (is_production c)) req = Pass ->
  origin_callback c (origin req) = Failed message ->
  dispatch x c p (served_stack c) None req = ToErrorHandler (Error message) req.
Proof.
  intros Hcors Hhelmet Hfail.
  unfold served_stack, middleware_stages, middleware_plan. rewrite Hcors.
  rewrite !stages_of_app.
  assert (Hprod : stages_of (when (is_production c) [TrustProxy]) = [])
    by (destruct (is_production c); reflexivity).
  rewrite Hprod. cbn [List.app].
  assert (Hcors_layer : forall rest,
            existsb is_error_handler rest = true ->
            dispatch x c p (CorsMw (origin_callback c) :: rest) None req
            = ToErrorHandler (Error message) req).
  { intros rest Hrest. rewrite dispatch_step. cbn [is_error_handler run_layer].
    rewrite Hfail. apply dispatch_pending. exact Hrest. }
  assert (Hlast : forall rest,
            In ErrorHandler rest -> existsb is_error_handler rest = true).
  { intros rest Hin. apply existsb_exists. exists ErrorHandler. auto. }
  destruct (helmet_enabled (security c)); cbn [when stages_of List.app].
  - rewrite dispatch_step. cbn [is_error_handler run_layer]. rewrite Hhelmet.
    cbn [of_reply]. apply Hcors_layer, Hlast.
    repeat first [apply in_eq | apply in_cons | apply in_or_app; right].
  - apply Hcors_layer, Hlast.
    repeat first [apply in_eq | apply in_cons | apply in_or_app; right].
Qed.

Example refused_origin_on_sample :
  dispatch plain_express dev_config (a_runtime true) (served_stack dev_config) None
           {| req_method := GET; originalUrl := js "/health"; path := js "/health";
              origin := Some (js "https://evil.example"); content := MediaOther;
              has_body := false; stream := []; rawBody := None; body := None;
              body_read := false; res := 7 |}
  = ToErrorHandler (Error (js "Not allowed by CORS"))
      {| req_method := GET; originalUrl := js "/health"; path := js "/health";
         origin := Some (js "https://evil.example"); content := MediaOther;
         has_body := false; stream := []; rawBody := None; body := None;
         body_read := false; res := 7 |}.
Proof. vm_compute. reflexivity. Qed.

(** C8. With the CORS feature disabled, [setupMiddleware] installs no
    CORS stage and logs one warning instead; the stack of the started
    application holds no CORS stage either, so its origin check lets
    every origin, present or absent, through. *)
Theorem cors_disabled_checks_nothing (c : config) :
  cors_enabled (cors (security c)) = false ->
  (forall f, ~ In (CorsMw f) (middleware_stages c))
  /\ In (Say warn (js "CORS is disabled - this may cause issues with frontend communication"))
        (middleware_plan c)
  /\ (forall f, ~ In (CorsMw f) (served_stack c))
  /\ (forall o, origin_check (served_stack c) o = None).
Proof.
  intros H.
  assert (Hserved : forall f, ~ In (CorsMw f) (served_stack c)).
  { intros f Hin. unfold served_stack, middleware_stages, middleware_plan,
      route_stages, routes_plan, error_plan in Hin.
    rewrite H in Hin. stage_cases Hin. }
  split; [|split; [|split]].
  - intros f Hin. apply (Hserved f). unfold served_stack.
    apply in_or_app. left. exact Hin.
  - unfold middleware_plan. rewrite H.
    apply in_or_app. right. apply in_or_app. right. apply in_or_app. left.
    left. reflexivity.
  - exact Hserved.
  - intros o. apply origin_check_without_cors. exact Hserved.
Qed.

Lemma cors_disabled_checks_nothing_witness :
  cors_enabled (cors (security prod_config)) = false
  /\ origin_check (served_stack prod_config) (Some (js "https://evil.example")) = None.
Proof.
  split; [reflexivity|].
  apply (cors_disabled_checks_nothing prod_config). reflexivity.
Defined.

(** The same origin is refused once CORS is enabled. *)
Example cors_enabled_refuses :
  origin_check (served_stack dev_config) (Some (js "https://evil.example"))
  = Some (js "Not allowed by CORS").
Proof. vm_compute. reflexivity. Qed.

(** *** The idle timeout *)

Lemma positive_is_truthy (ms : float) :
  (0 <? ms)%float = true -> truthy_number ms = true.
Proof.
  unfold truthy_number. rewrite ltb_spec, !eqb_spec.
  change (Prim2SF 0) with (S754_zero false).
  destruct (Prim2SF ms) as [[|]|[|]| |[|] m e]; cbn; try discriminate; intros _;
    try reflexivity.
  rewrite Z.compare_refl, Pos.compare_cont_refl. reflexivity.
Qed.

Lemma zero_is_falsy (ms : float) :
  (ms =? 0)%float = true -> truthy_number ms = false.
Proof. intros H. unfold truthy_number. rewrite H. reflexivity. Qed.

(** The idle-timeout stages of the pipeline are the one [setupMiddleware]
    adds under its truthiness test. *)
Lemma idle_stage_in_pipeline (c : config) (m : float) :
  In (IdleSessionTimeout m) (middleware_stages c) <->
  exists ms, idleTimeout (session c) = Some ms
             /\ truthy_number ms = true /\ m = (ms / 60000)%float.
Proof.
  unfold middleware_stages, middleware_plan. split.
  - intros H. stage_cases H.
    match goal with
    | E : truthy_number ?ms = true |- _ => exists ms; inversion H; auto
    end.
  - intros (ms & Hms & Ht & ->). rewrite Hms, Ht.
    rewrite !stages_of_app. cbn [when stages_of].
    rewrite !in_app_iff. cbn [In]. tauto.
Qed.

(** *** Body parsing *)

Lemma decode_ascii (bytes : list Byte.byte) :
  Forall (fun b => (Byte.to_N b <= 127)%N) bytes ->
  Buffer.toString_utf8 bytes = List.map Byte.to_N bytes.
Proof.
  unfold Buffer.toString_utf8.
  induction bytes as [|b bytes IH]; intros H; [reflexivity|].
  inversion H as [|? ? Hb Hrest]; subst.
  cbn [Buffer.decode List.map]. unfold Buffer.step, Buffer.lead.
  apply N.leb_le in Hb. rewrite Hb. cbn [List.app]. f_equal. apply IH. exact Hrest.
Qed.

Example decode_two_byte :
  Buffer.toString_utf8 [Byte.x63; Byte.x61; Byte.x66; Byte.xc3; Byte.xa9]
  = [99; 97; 102; 233]%N.
Proof. reflexivity. Qed.

Example decode_three_byte :
  Buffer.toString_utf8 [Byte.xe2; Byte.x82; Byte.xac] = [8364%N].
Proof. reflexivity. Qed.

Example decode_surrogate_pair :
  Buffer.toString_utf8 [Byte.xf0; Byte.x9f; Byte.x98; Byte.x80] = [55357; 56832]%N.
Proof. reflexivity. Qed.

Example decode_ill_formed :
  Buffer.toString_utf8 [Byte.x61; Byte.xff; Byte.xc3; Byte.x62] = [97; 65533; 65533; 98]%N.
Proof. reflexivity. Qed.

Section Parsers.
Variable bytes_parse : jsstring -> option N.
Variable response : Type.

Lemma default_body_fields (req : request) :
  body_read (default_body req) = body_read req
  /\ has_body (default_body req) = has_body req
  /\ content (default_body req) = content req
  /\ stream (default_body req) = stream req
  /\ rawBody (default_body req) = rawBody req.
Proof. unfold default_body. destruct (body req); cbn; auto. Qed.

(** A parser that accepts the request reads it. *)
Lemma parser_reads accepts l verify valid parsed (req : request) :
  body_read req = false -> has_body req = true ->
  accepts (content req) = true ->
  @BodyParser.parser bytes_parse response accepts l verify valid parsed req =
  let flagged := set_body_read (default_body req) in
  if negb (within bytes_parse l (stream req))
  then NextError (HttpError 413 (js "entity.too.large")) flagged
  else
    let verified :=
      match verify with Some v => v flagged (stream req) | None => flagged end in
    if valid (stream req)
    then Next (set_body verified (parsed (stream req)))
    else NextError (HttpError 400 (js "entity.parse.failed")) verified.
Proof.
  intros Hread Hbody Haccept.
  destruct (default_body_fields req) as (H1 & H2 & H3 & H4 & _).
  unfold BodyParser.parser, BodyParser.read. rewrite Hread, H2, H3, Hbody, Haccept.
  cbn [negb set_body_read stream]. rewrite H4. reflexivity.
Qed.

(** A parser passes on a request that is not of its type. *)
Lemma parser_skips accepts l verify valid parsed (req : request) :
  body_read req = false -> accepts (content req) = false ->
  @BodyParser.parser bytes_parse response accepts l verify valid parsed req =
  Next (default_body req).
Proof.
  intros Hread Haccept.
  destruct (default_body_fields req) as (_ & _ & H3 & _).
  unfold BodyParser.parser. rewrite Hread, H3, Haccept.
  destruct (negb (has_body (default_body req))); reflexivity.
Qed.

(** A parser passes on a request another parser has read. *)
Lemma parser_done accepts l verify valid parsed (req : request) :
  body_read req = true ->
  @BodyParser.parser bytes_parse response accepts l verify valid parsed req = Next req.
Proof. intros Hread. unfold BodyParser.parser. rewrite Hread. reflexivity. Qed.

End Parsers.

(** A body over the ceiling is refused before [verify] is called. *)
Lemma oversized_body_is_refused
      (x : express) (c : config) (p : runtime) (req : request) :
  body_read req = false -> has_body req = true -> content req = MediaJson ->
  within (bytes_parse x) (upload_limit c) (stream req) = false ->
  exists r,
    run_layer x c p (JsonBody (upload_limit c) (Some capture_raw_body)) req
    = NextError (HttpError 413 (js "entity.too.large")) r
    /\ rawBody r = rawBody req.
Proof.
  intros Hread Hbody Hjson Hover. cbn [run_layer]. unfold BodyParser.json.
  rewrite parser_reads; [|assumption|assumption|rewrite Hjson; reflexivity].
  cbv zeta. rewrite Hover. cbn [negb]. eexists. split; [reflexivity|].
  cbn [set_body_read rawBody]. apply default_body_fields.
Qed.

(** C7 (amended). For a request that carries a body within
    the configured ceiling and has not been read yet: when the body is
    JSON, the JSON stage stores the UTF-8 text of the raw bytes in
    [rawBody] before it parses them (for an ASCII body, the very
    characters that were sent), so the raw body is there whether the
    parse succeeds (next to the parsed body) or fails; when the body is
    form-encoded, the stages pass the request on with the parsed form
    and leave [rawBody] as it was. *)
Theorem raw_body_capture
        (x : express) (c : config) (p : runtime) (req : request) :
  body_read req = false -> has_body req = true ->
  within (bytes_parse x) (upload_limit c) (stream req) = true ->
  (content req = MediaJson ->
   exists r,
     rawBody r = Some (Buffer.toString_utf8 (stream req))
     /\ (Forall (fun b => (Byte.to_N b <= 127)%N) (stream req) ->
         rawBody r = Some (List.map Byte.to_N (stream req)))
     /\ (json_valid x (stream req) = true ->
         falls_through x c p (body_stages c) req = Some r
         /\ body r = Some (ParsedJson (stream req)))
     /\ (json_valid x (stream req) = false ->
         run_layer x c p (JsonBody (upload_limit c) (Some capture_raw_body)) req
         = NextError (HttpError 400 (js "entity.parse.failed")) r))
  /\ (content req = MediaUrlencoded -> form_valid x (stream req) = true ->
      exists r,
        falls_through x c p (body_stages c) req = Some r
        /\ body r = Some (ParsedForm (stream req))
        /\ rawBody r = rawBody req).
Proof.
  intros Hread Hbody Hwithin.
  destruct (default_body_fields req) as (D1 & D2 & D3 & D4 & D5).
  split.
  - intros Hjson.
    assert (Hstage :
      run_layer x c p (JsonBody (upload_limit c) (Some capture_raw_body)) req =
      let verified := capture_raw_body (set_body_read (default_body req)) (stream req) in
      if json_valid x (stream req)
      then Next (set_body verified (ParsedJson (stream req)))
      else NextError (HttpError 400 (js "entity.parse.failed")) verified).
    { cbn [run_layer]. unfold BodyParser.json.
      rewrite parser_reads; [|assumption|assumption|rewrite Hjson; reflexivity].
      cbv zeta. rewrite Hwithin. reflexivity. }
    cbv zeta in Hstage.
    destruct (json_valid x (stream req)) eqn:Hvalid.
    + eexists. split; [|split; [|split; [intros _|discriminate]]].
      3:{ unfold body_stages. cbn [falls_through is_error_handler]. rewrite Hstage.
          cbn [run_layer]. unfold BodyParser.urlencoded.
          rewrite parser_done; [|reflexivity].
          cbn [falls_through]. split; reflexivity. }
      * reflexivity.
      * intros Hascii. cbn [set_body rawBody capture_raw_body set_rawBody].
        rewrite (decode_ascii _ Hascii). reflexivity.
    + eexists. split; [|split; [|split; [discriminate|intros _; exact Hstage]]].
      * reflexivity.
      * intros Hascii. cbn [rawBody capture_raw_body set_rawBody].
        rewrite (decode_ascii _ Hascii). reflexivity.
  - intros Hform Hvalid. unfold body_stages. cbn [falls_through run_layer is_error_handler].
    unfold BodyParser.json.
    rewrite parser_skips; [|assumption|rewrite Hform; reflexivity].
    unfold BodyParser.urlencoded.
    rewrite parser_reads;
      [|rewrite D1; assumption|rewrite D2; assumption|rewrite D3, Hform; reflexivity].
    cbv zeta. rewrite D4, Hwithin, Hvalid. cbn [negb falls_through].
    eexists. split; [reflexivity|]. split; [reflexivity|].
    cbn [set_body set_body_read rawBody].
    destruct (default_body_fields (default_body req)) as (_ & _ & _ & _ & E5).
    rewrite E5. exact D5.
Qed.

Lemma raw_body_capture_witness :
  exists r,
    falls_through plain_express dev_config (a_runtime true)
                  (body_stages dev_config)
                  (post "/api/v1/webhooks" MediaJson "{}") = Some r
    /\ rawBody r = Some (js "{}")
    /\ body r = Some (ParsedJson (list_byte_of_string "{}")).
Proof.
  destruct (raw_body_capture plain_express dev_config (a_runtime true)
              (post "/api/v1/webhooks" MediaJson "{}"))
    as [Hjson _].
  - reflexivity.
  - reflexivity.
  - vm_compute; reflexivity.
  - destruct (Hjson eq_refl) as (r & Hraw & _ & Hok & _).
    destruct (Hok eq_refl) as [Hfall Hparsed].
    exists r. repeat split; assumption.
Defined.

(** C7 as stated fails on a form-encoded body: it goes through the
    whole pipeline and reaches the routes parsed, with no raw body on
    the request. *)
Lemma form_raw_body_is_not_captured :
  exists r,
    falls_through plain_express dev_config (a_runtime true)
                  (middleware_stages dev_config)
                  (post "/api/v1/contact" MediaUrlencoded "name=Ada") = Some r
    /\ body r = Some (ParsedForm (list_byte_of_string "name=Ada"))
    /\ rawBody r = None.
Proof. eexists. split; [vm_compute; reflexivity|]. split; reflexivity. Qed.

End PipelineFacts.

(** ** What [start] leaves behind *)

Module StartFacts.
Import JS Config Http Pipeline Effects Lifecycle Routes Installation.
Import LifecycleFacts RoutesFacts.
Local Open Scope effect_scope.

Lemma installs_app_use (w : world) (s : stage) : installs (app_use w s) [s].
Proof.
  intros app. unfold app_use. destruct (build_fails w s) as [e|].
  - cbn. exists [], [s]. rewrite app_nil_r. repeat split. discriminate.
  - reflexivity.
Qed.

Lemma installs_push (s : stage) : installs (modify (push_stage s)) [s].
Proof. intros app. reflexivity. Qed.

Lemma installs_ret : installs (ret tt) [].
Proof. intros app. cbn. rewrite app_nil_r. reflexivity. Qed.

Lemma installs_bind (m1 : M unit) (k : unit -> M unit) (S1 S2 : list stage) :
  installs m1 S1 -> (forall u, installs (k u) S2) ->
  installs (bind m1 k) (S1 ++ S2).
Proof.
  intros H1 H2 app. unfold bind. specialize (H1 app).
  destruct (m1 app) as [[[u|e] app1] t1].
  - specialize (H2 u app1). destruct (k u app1) as [[[u'|e] app2] t2].
    + rewrite H2, H1, app_assoc. reflexivity.
    + destruct H2 as (done & rest & -> & Hrest & Hstack).
      exists (S1 ++ done), rest. rewrite Hstack, H1, <- !app_assoc. auto.
  - destruct H1 as (done & rest & -> & Hrest & Hstack).
    exists done, (rest ++ S2). rewrite <- app_assoc. split; [reflexivity|].
    split; [|exact Hstack]. destruct rest; [contradiction | discriminate].
Qed.

(** A step that cannot touch the stack, before stages that are due. *)
Lemma installs_after (m1 : M unit) (k : unit -> M unit) (S : list stage) :
  keeps_stack m1 -> S <> [] -> (forall u, installs (k u) S) ->
  installs (bind m1 k) S.
Proof.
  intros H1 Hne H2 app. unfold bind. specialize (H1 app).
  destruct (m1 app) as [[[u|e] app1] t1].
  - specialize (H2 u app1). destruct (k u app1) as [[[u'|e] app2] t2].
    + rewrite H2, H1. reflexivity.
    + destruct H2 as (done & rest & -> & Hrest & Hstack).
      exists done, rest. rewrite Hstack, H1. auto.
  - exists [], S. rewrite H1, app_nil_r. auto.
Qed.

(** A step that cannot throw or touch the stack, before anything. *)
Lemma installs_after_quiet (m1 : M unit) (k : unit -> M unit) (S : list stage) :
  keeps_stack m1 -> returns m1 -> (forall u, installs (k u) S) ->
  installs (bind m1 k) S.
Proof.
  intros H1 Hr H2 app. unfold bind. specialize (H1 app). specialize (Hr app).
  destruct (m1 app) as [[[u|e] app1] t1]; [|contradiction].
  specialize (H2 u app1). destruct (k u app1) as [[[u'|e] app2] t2].
  - rewrite H2, H1. reflexivity.
  - destruct H2 as (done & rest & -> & Hrest & Hstack).
    exists done, rest. rewrite Hstack, H1. auto.
Qed.

(** ... and after the stages. *)
Lemma installs_before_quiet (m1 : M unit) (k : unit -> M unit) (S : list stage) :
  installs m1 S -> (forall u, keeps_stack (k u)) -> (forall u, returns (k u)) ->
  installs (bind m1 k) S.
Proof.
  intros H1 Hk Hr app. unfold bind. specialize (H1 app).
  destruct (m1 app) as [[[u|e] app1] t1]; [|exact H1].
  specialize (Hk u app1). specialize (Hr u app1).
  destruct (k u app1) as [[[u'|e] app2] t2]; [|contradiction].
  rewrite Hk. exact H1.
Qed.

Lemma installs_logged (m : M unit) (message : string) (S : list stage) :
  installs m S ->
  installs (try_catch m (fun e => log_error message e ;; throw e)) S.
Proof.
  intros H app. unfold try_catch. specialize (H app).
  destruct (m app) as [[[u|e] app1] t1]; [exact H|]. cbn. exact H.
Qed.

Lemma keeps_stack_emit (ev : event) : keeps_stack (emit ev).
Proof. intros app. reflexivity. Qed.

Lemma returns_emit (ev : event) : returns (emit ev).
Proof. intros app. exact I. Qed.

Lemma keeps_stack_call (ev : event) (fails : option js_error) :
  keeps_stack (call ev fails).
Proof. intros app. unfold call. destruct fails; reflexivity. Qed.

Lemma installs_run_plan (w : world) (p : list step) :
  installs (run_plan w p) (stages_of p).
Proof.
  induction p as [|st p IH]; cbn [run_plan stages_of]; [apply installs_ret|].
  destruct st as [s| |l m]; cbn [run_step].
  - change (s :: stages_of p) with ([s] ++ stages_of p).
    apply installs_bind; [apply installs_app_use | intros _; exact IH].
  - apply installs_after_quiet; [| |intros _; exact IH].
    + intros app. reflexivity.
    + intros app. exact I.
  - apply installs_after_quiet;
      [apply keeps_stack_emit | apply returns_emit | intros _; exact IH].
Qed.

Lemma installs_setupPassport (w : world) :
  installs (setupPassport w) [Passport; ViewLocals].
Proof.
  unfold setupPassport. change [Passport; ViewLocals] with ([Passport] ++ [ViewLocals]).
  apply installs_bind; [|intros _; apply installs_app_use].
  apply installs_logged.
  apply installs_before_quiet;
    [|intros _; apply keeps_stack_emit | intros _; apply returns_emit].
  unfold passport_initialize.
  apply installs_after; [apply keeps_stack_call | discriminate|]. intros _.
  apply installs_after_quiet;
    [apply keeps_stack_emit | apply returns_emit | intros _; apply installs_push].
Qed.

Lemma installs_initialize (c : config) (w : world) :
  installs (initialize c w) (served_stack c).
Proof.
  unfold initialize, served_stack, setupMiddleware, setupRoutes, setupErrorHandling.
  apply installs_bind; [apply installs_run_plan|]. intros _.
  change (Passport :: ViewLocals :: route_stages c ++ stages_of error_plan)
    with ([Passport; ViewLocals] ++ route_stages c ++ stages_of error_plan).
  apply installs_bind; [apply installs_setupPassport|]. intros _.
  apply installs_bind; [apply installs_run_plan|]. intros _.
  apply installs_run_plan.
Qed.

Lemma served_stack_not_empty (c : config) : served_stack c <> [].
Proof.
  rewrite served_stack_at_root. intros H. apply app_eq_nil in H.
  destruct H as [_ H]. discriminate.
Qed.

Lemma installs_start (c : config) (w : world) :
  installs (start c w) (served_stack c).
Proof.
  unfold start. apply installs_logged.
  apply installs_after;
    [apply keeps_stack_call | apply served_stack_not_empty|]. intros _.
  apply installs_after_quiet; [apply keeps_stack_emit | apply returns_emit|].
  intros _.
  apply installs_before_quiet;
    [apply installs_initialize
    | intros _; apply keeps_stack_emit | intros _; apply returns_emit].
Qed.

Lemma never_emit (P : event -> bool) (ev : event) :
  P ev = false -> never P (emit ev).
Proof. intros H app. cbn. rewrite H. reflexivity. Qed.

Lemma never_modify (P : event -> bool) (f : application -> application) :
  never P (modify f).
Proof. intros app. reflexivity. Qed.

Lemma never_ret (P : event -> bool) : never P (ret tt).
Proof. intros app. reflexivity. Qed.

Lemma never_call (P : event -> bool) (ev : event) (fails : option js_error) :
  P ev = false -> never P (call ev fails).
Proof. intros H app. unfold call. destruct fails; cbn; rewrite H; reflexivity. Qed.

Lemma never_bind (P : event -> bool) (m1 : M unit) (k : unit -> M unit) :
  never P m1 -> (forall u, never P (k u)) -> never P (bind m1 k).
Proof.
  intros H1 H2 app. unfold bind. specialize (H1 app).
  destruct (m1 app) as [[[u|e] app1] t1]; [|exact H1].
  specialize (H2 u app1). destruct (k u app1) as [[o app2] t2].
  rewrite existsb_app, H1, H2. reflexivity.
Qed.

Lemma never_try_catch (P : event -> bool) (m : M unit) (h : js_error -> M unit) :
  never P m -> (forall e, never P (h e)) -> never P (try_catch m h).
Proof.
  intros H1 H2 app. unfold try_catch. specialize (H1 app).
  destruct (m app) as [[[u|e] app1] t1]; [exact H1|].
  specialize (H2 e app1). destruct (h e app1) as [[o app2] t2].
  rewrite existsb_app, H1, H2. reflexivity.
Qed.

Lemma never_app_use (P : event -> bool) (w : world) (s : stage) :
  P (AppUse s) = false -> never P (app_use w s).
Proof.
  intros H. unfold app_use. destruct (build_fails w s).
  - intros app. reflexivity.
  - apply never_bind; [apply never_emit; exact H | intros _; apply never_modify].
Qed.

Lemma never_run_plan (P : event -> bool) (w : world) (p : list step) :
  existsb P (trace_of p) = false -> never P (run_plan w p).
Proof.
  induction p as [|st p IH]; cbn [run_plan trace_of map existsb]; intros H.
  - apply never_ret.
  - apply orb_false_iff in H. destruct H as [Hst Hp].
    apply never_bind; [|intros _; exact (IH Hp)].
    destruct st as [s| |l m]; cbn [run_step event_of] in *.
    + apply never_app_use. exact Hst.
    + apply never_bind; [apply never_emit; exact Hst | intros _; apply never_modify].
    + apply never_emit. exact Hst.
Qed.

Lemma plans_say_nothing_final (c : config) :
  existsb is_initialized_log
    (trace_of (middleware_plan c) ++ trace_of (routes_plan c) ++ trace_of error_plan)
  = false.
Proof.
  unfold middleware_plan, routes_plan, error_plan, trace_of, when.
  destruct (is_production c), (helmet_enabled (security c)),
    (cors_enabled (cors (security c))), (sanitize_enabled (security c)),
    (logging_enabled c), (is_development c);
    destruct (idleTimeout (session c)) as [ms|];
    try destruct (truthy_number ms); reflexivity.
Qed.

Lemma never_initialized_in_initialize (c : config) (w : world) :
  never is_initialized_log (initialize c w).
Proof.
  pose proof (plans_say_nothing_final c) as H.
  rewrite !existsb_app in H. apply orb_false_iff in H. destruct H as [Hm H].
  apply orb_false_iff in H. destruct H as [Hr He].
  unfold initialize, setupMiddleware, setupRoutes, setupErrorHandling.
  apply never_bind; [apply never_run_plan; exact Hm|]. intros _.
  apply never_bind; [|intros _].
  - unfold setupPassport.
    apply never_bind; [|intros _; apply never_app_use; reflexivity].
    apply never_try_catch.
    + apply never_bind; [|intros _; apply never_emit; reflexivity].
      unfold passport_initialize.
      apply never_bind; [apply never_call; reflexivity|]. intros _.
      apply never_bind; [apply never_emit; reflexivity|]. intros _.
      apply never_modify.
    + intros e. apply never_bind; [apply never_emit; reflexivity|].
      intros _ app. reflexivity.
  - apply never_bind; [apply never_run_plan; exact Hr|]. intros _.
    apply never_run_plan. exact He.
Qed.

Lemma undisturbed_logs_no_error (c : config) :
  existsb is_error_log (undisturbed c) = false.
Proof.
  unfold undisturbed, passport_trace, middleware_plan, routes_plan, error_plan,
    trace_of, when.
  destruct (is_production c), (helmet_enabled (security c)),
    (cors_enabled (cors (security c))), (sanitize_enabled (security c)),
    (logging_enabled c), (is_development c);
    destruct (idleTimeout (session c)) as [ms|];
    try destruct (truthy_number ms); reflexivity.
Qed.

Lemma error_handler_is_last (c : config) :
  existsb is_terminal (removelast (served_stack c)) = false.
Proof.
  unfold served_stack, middleware_stages, route_stages, middleware_plan,
    routes_plan, error_plan, when.
  destruct (is_production c), (helmet_enabled (security c)),
    (cors_enabled (cors (security c))), (sanitize_enabled (security c)),
    (logging_enabled c), (is_development c);
    destruct (idleTimeout (session c)) as [ms|];
    try destruct (truthy_number ms); reflexivity.
Qed.

Lemma proper_prefix_of_removelast {A : Type} (done rest : list A) :
  rest <> [] -> removelast (done ++ rest) = done ++ removelast rest.
Proof. intros H. apply removelast_app. exact H. Qed.

(** X1. [start] appends the stages in one fixed order and never rolls
    back: when it returns, the stack has grown by the whole pipeline,
    the authentication stages, the routes and the error handlers; when
    it throws, the stack has grown by the stages that come before the
    first one it did not reach, and the global error handler is not
    among them. *)
Theorem start_installs_a_prefix (c : config) (w : world) (app : application) :
  match start c w app with
  | (Returned _, app', _) => stack app' = stack app ++ served_stack c
  | (Threw _, app', _) =>
      exists done rest,
        served_stack c = done ++ rest /\ rest <> []
        /\ stack app' = stack app ++ done
        /\ ~ In ErrorHandler done
  end.
Proof.
  pose proof (installs_start c w app) as H.
  destruct (start c w app) as [[[u|e] app'] tr]; [exact H|].
  destruct H as (done & rest & Hsplit & Hrest & Hstack).
  exists done, rest. repeat split; try assumption.
  intros Hin. pose proof (error_handler_is_last c) as Hlast.
  rewrite Hsplit, (proper_prefix_of_removelast done rest Hrest) in Hlast.
  rewrite existsb_app in Hlast. apply orb_false_iff in Hlast.
  destruct Hlast as [Hdone _].
  assert (Hex : existsb is_terminal done = true).
  { apply existsb_exists. exists ErrorHandler. split; [exact Hin | reflexivity]. }
  rewrite Hex in Hdone. discriminate.
Qed.

Lemma start_calm_returns (c : config) (app : application) :
  start c calm app
  = (Returned tt, snd (fst (start c calm app)), snd (start c calm app)).
Proof.
  pose proof (start_calm c app) as H.
  destruct (start c calm app) as [[o a] t]. destruct H as [-> _]. reflexivity.
Qed.

(** X2. [start] has no guard against being called again: two calls that
    both return leave every stage of the served stack installed twice,
    the second copy behind the first. *)
Theorem start_twice_installs_twice
  (c : config) (w1 w2 : world) (app app1 app2 : application) (t1 t2 : list event) :
  start c w1 app = (Returned tt, app1, t1) ->
  start c w2 app1 = (Returned tt, app2, t2) ->
  stack app2 = stack app ++ served_stack c ++ served_stack c.
Proof.
  intros H1 H2.
  pose proof (installs_start c w1 app) as I1. rewrite H1 in I1.
  pose proof (installs_start c w2 app1) as I2. rewrite H2 in I2.
  rewrite I2, I1, <- app_assoc. reflexivity.
Qed.

Lemma start_twice_installs_twice_witness :
  stack (snd (fst (start Samples.dev_config calm
                     (snd (fst (start Samples.dev_config calm new_application))))))
  = served_stack Samples.dev_config ++ served_stack Samples.dev_config.
Proof.
  apply (start_twice_installs_twice Samples.dev_config calm calm new_application
           (snd (fst (start Samples.dev_config calm new_application)))
           (snd (fst (start Samples.dev_config calm
                        (snd (fst (start Samples.dev_config calm new_application))))))
           (snd (start Samples.dev_config calm new_application))
           (snd (start Samples.dev_config calm
                   (snd (fst (start Samples.dev_config calm new_application)))))).
  - apply start_calm_returns.
  - apply start_calm_returns.
Defined.

(** X3. [start] reports how it ended: when it throws [e], the last entry
    of the log is the error [Failed to start application] with the
    message of [e], and [Application initialized successfully] was not
    logged; when it returns, that entry is the last one and no error was
    logged. *)
Theorem start_reports_its_outcome (c : config) (w : world) (app : application) :
  match start c w app with
  | (Returned _, _, tr) =>
      existsb is_error_log tr = false
      /\ exists before,
           tr = before
                ++ [Log info (js "Application initialized successfully") None]
  | (Threw e, _, tr) =>
      exists before,
        tr = before
             ++ [Log error (js "Failed to start application")
                     (Some (error_message e))]
        /\ existsb is_initialized_log before = false
  end.
Proof.
  pose proof (follows_start c w app) as Hf.
  unfold start in *. unfold try_catch in *.
  set (body := bind (call DatabaseConnect (connect_fails w)) _) in *.
  assert (Hbody : match body app with
                  | (Threw _, _, tr) => existsb is_initialized_log tr = false
                  | _ => True
                  end).
  { subst body. unfold bind at 1. unfold call at 1.
    destruct (connect_fails w) as [e|]; [reflexivity|].
    unfold bind at 1. cbn [log emit].
    unfold bind at 1.
    pose proof (never_initialized_in_initialize c w app) as Hn.
    destruct (initialize c w app) as [[[u|e] app1] t1]; [exact I|].
    cbn. exact Hn. }
  destruct (body app) as [[[u|e] app1] t1].
  - subst t1. split; [apply undisturbed_logs_no_error|].
    exists ([DatabaseConnect; Log info (js "Database connected successfully") None]
            ++ trace_of (middleware_plan c) ++ passport_trace
            ++ trace_of (routes_plan c) ++ trace_of error_plan).
    unfold undisturbed. rewrite <- !app_assoc. reflexivity.
  - cbn. exists t1. split; [reflexivity | exact Hbody].
Qed.

End StartFacts.

(** ** What one [stop] does *)

Module StopFacts.
Import JS Config Http Pipeline Effects Lifecycle Installation History.
Import ShutdownFacts.
Local Open Scope effect_scope.

Lemma end_all_succeeds (w : world) (l : list handle) (app : application) :
  (forall r, In r l -> end_fails w r = None) ->
  end_all w l app = (Returned tt, app, List.map ConnectionEnd l).
Proof.
  induction l as [|r l IH]; intros H; [reflexivity|].
  cbn [end_all]. unfold bind, call. rewrite (H r (in_eq r l)).
  rewrite IH; [reflexivity|]. intros x Hx. apply H. right. exact Hx.
Qed.

Lemma end_all_breaks (w : world) (l1 l2 : list handle) (r : handle)
      (e : js_error) (app : application) :
  (forall x, In x l1 -> end_fails w x = None) ->
  end_fails w r = Some e ->
  end_all w (l1 ++ r :: l2) app
  = (Threw e, app, List.map ConnectionEnd (l1 ++ [r])).
Proof.
  induction l1 as [|x l1 IH]; intros H Hr.
  - cbn [end_all List.app]. unfold bind, call. rewrite Hr. reflexivity.
  - cbn [end_all List.app]. unfold bind, call. rewrite (H x (in_eq x l1)).
    fold (call (ConnectionEnd r)).
    rewrite IH; [reflexivity | | exact Hr].
    intros y Hy. apply H. right. exact Hy.
Qed.

(** X4. A first [stop] during which no [end] throws ends every tracked
    connection once, in the order of the connection set, then closes the
    datastore; it sets the shutdown flag and changes nothing else. When
    the close throws, [stop] logs the error and throws it again; the
    connections have been ended all the same. *)
Theorem stop_ends_every_connection (w : world) (app : application) :
  isShuttingDown app = false ->
  (forall r, In r (connections app) -> end_fails w r = None) ->
  stop w app =
  (match close_fails w with Some e => Threw e | None => Returned tt end,
   set_shutting_down app,
   Log info (js "Stopping application gracefully") None
   :: List.map ConnectionEnd (connections app)
   ++ DatabaseClose
   :: match close_fails w with
      | Some e =>
          [Log error (js "Error during application shutdown")
               (Some (error_message e))]
      | None =>
          [Log info (js "Database connection closed") None;
           Log info (js "Application stopped successfully") None]
      end).
Proof.
  intros Hflag Hends. unfold stop. rewrite Hflag.
  unfold bind at 1. cbn [modify]. unfold bind at 1. cbn [log emit].
  unfold try_catch. unfold bind at 1.
  rewrite (end_all_succeeds w (connections app) (set_shutting_down app) Hends).
  unfold bind at 1. unfold call.
  destruct (close_fails w) as [e|]; cbn; rewrite <- ?app_assoc; reflexivity.
Qed.

Lemma stop_ends_every_connection_witness :
  stop Samples.close_breaks MoreSamples.two_open
  = (Threw (Error (js "close failed")),
     set_shutting_down MoreSamples.two_open,
     [Log info (js "Stopping application gracefully") None;
      ConnectionEnd 1; ConnectionEnd 2; DatabaseClose;
      Log error (js "Error during application shutdown")
          (Some (js "close failed"))]).
Proof.
  apply (stop_ends_every_connection Samples.close_breaks MoreSamples.two_open).
  - reflexivity.
  - intros r _. reflexivity.
Defined.

(** X5. When ending a connection throws, a first [stop] gives up there:
    it has ended the connections before that one, it ends none after it
    and does not close the datastore, it logs the error and throws it
    again. The shutdown flag stays set, so whatever is called on the
    instance afterwards, neither the connections left nor the datastore
    are ever closed. *)
Theorem stop_gives_up_at_a_failing_connection
  (c : config) (w : world) (app : application)
  (l1 l2 : list handle) (r : handle) (e : js_error) :
  isShuttingDown app = false ->
  connections app = l1 ++ r :: l2 ->
  (forall x, In x l1 -> end_fails w x = None) ->
  end_fails w r = Some e ->
  stop w app =
  (Threw e, set_shutting_down app,
   Log info (js "Stopping application gracefully") None
   :: List.map ConnectionEnd (l1 ++ [r])
   ++ [Log error (js "Error during application shutdown")
           (Some (error_message e))])
  /\ forall acts,
       forallb closes_nothing (snd (run c acts (set_shutting_down app))) = true.
Proof.
  intros Hflag Hconn Hends Hr. split.
  - unfold stop. rewrite Hflag.
    unfold bind at 1. cbn [modify]. unfold bind at 1. cbn [log emit].
    unfold try_catch. unfold bind at 1.
    rewrite Hconn, (end_all_breaks w l1 l2 r e (set_shutting_down app) Hends Hr).
    cbn. reflexivity.
  - intros acts.
    pose proof (run_flag_and_counts c acts (set_shutting_down app)) as H.
    destruct (run c acts (set_shutting_down app)) as [app' tr].
    destruct H as (H & _). destruct (H eq_refl) as [_ Hq]. exact Hq.
Qed.

Lemma stop_gives_up_at_a_failing_connection_witness :
  stop MoreSamples.second_end_breaks
       (set_connections [1; 2; 3] new_application)
  = (Threw MoreSamples.broken_pipe,
     set_shutting_down (set_connections [1; 2; 3] new_application),
     [Log info (js "Stopping application gracefully") None;
      ConnectionEnd 1; ConnectionEnd 2;
      Log error (js "Error during application shutdown")
          (Some (js "write EPIPE"))]).
Proof.
  apply (stop_gives_up_at_a_failing_connection
           Samples.dev_config MoreSamples.second_end_breaks
           (set_connections [1; 2; 3] new_application)
           [1] [3] 2 MoreSamples.broken_pipe).
  - reflexivity.
  - reflexivity.
  - intros x [<- | []]. reflexivity.
  - reflexivity.
Defined.

Lemma stop_sets_the_flag (w : world) (app : application) :
  match stop w app with (_, app', _) => isShuttingDown app' = true end.
Proof.
  destruct (isShuttingDown app) eqn:Hflag.
  - rewrite (stop_again w app Hflag). exact Hflag.
  - pose proof (stop_first w app Hflag) as H.
    destruct (stop w app) as [[o app'] tr]. destruct H as [-> _]. reflexivity.
Qed.

(** X17. [stop] does not turn the connection tracking off: a request
    that reaches the tracking stage after a [stop], whether that [stop]
    returned or threw, is still added to the connection set, and
    whatever is called on the instance from then on, neither that
    connection nor any other is ended, and the datastore is not closed. *)
Theorem requests_after_stop_are_tracked_but_never_ended
  (c : config) (w : world) (app : application) (r : handle) (acts : list action) :
  match stop w app with
  | (_, app1, _) =>
      match track r app1 with
      | (o, app2, tr) =>
          o = Returned tt /\ tr = []
          /\ In r (connections app2)
          /\ isShuttingDown app2 = true
          /\ forallb closes_nothing (snd (run c acts app2)) = true
      end
  end.
Proof.
  pose proof (stop_sets_the_flag w app) as Hflag.
  destruct (stop w app) as [[o1 app1] t1].
  unfold track, modify.
  split; [reflexivity|]. split; [reflexivity|].
  cbn [connections add_finish_listener set_connections isShuttingDown].
  split; [apply In_set_add; left; reflexivity|]. split; [exact Hflag|].
  match goal with
  | |- forallb _ (snd (run c acts ?a)) = true =>
      pose proof (run_flag_and_counts c acts a) as H;
      destruct (run c acts a) as [app3 t3]
  end.
  destruct H as (H & _). destruct (H Hflag) as [_ Hq]. exact Hq.
Qed.

End StopFacts.

(** ** The order of the connection set *)

Module HistoryFacts.
Import JS Config Http Pipeline Effects Lifecycle History.
Import ShutdownFacts.

Lemma set_add_fresh (r : handle) (l : list handle) :
  ~ In r l -> set_add r l = l ++ [r].
Proof.
  intros H. unfold set_add.
  destruct (existsb (Nat.eqb r) l) eqn:E; [|reflexivity].
  exfalso. apply H. apply existsb_eqb_In. exact E.
Qed.

Lemma filter_all {A : Type} (l : list A) : List.filter (fun _ => true) l = l.
Proof. induction l as [|x l IH]; cbn; [|rewrite IH]; reflexivity. Qed.

Lemma filter_after_delete (r : handle) (rest : list action) (l : list handle) :
  List.filter (fun x => no_finish x rest) (set_delete r l)
  = List.filter (fun x => no_finish x (RequestFinish r :: rest)) l.
Proof.
  unfold set_delete, no_finish. induction l as [|x l IH]; [reflexivity|].
  cbn [List.filter forallb is_finish_of]. rewrite (Nat.eqb_sym x r).
  destruct (Nat.eqb r x); cbn [negb andb List.filter]; rewrite IH; reflexivity.
Qed.

Lemma run_order (c : config) (acts : list action) : forall app seen open,
  NoDup (connections app) ->
  (forall r, In r (connections app) <-> In r open) ->
  incl open seen ->
  incl (connections app) (finish_listeners app) ->
  well_formed seen open acts ->
  match run c acts app with
  | (app', _) =>
      connections app'
      = List.filter (fun r => no_finish r acts) (connections app)
        ++ open_in_order acts
  end.
Proof.
  induction acts as [|a rest IH]; intros app seen open Hnd Hopen Hseen Hincl Hwf;
    cbn [run].
  - cbn. rewrite filter_all, app_nil_r. reflexivity.
  - pose proof (perform_spec c a app) as Hp.
    destruct (perform c a app) as [[o app1] t1].
    destruct Hp as (Hc & Hl & _).
    pose proof (NoDup_next_connections a app Hnd) as Hnd1.
    pose proof (incl_next a app Hincl) as Hincl1.
    rewrite <- Hc in Hnd1. rewrite <- Hc, <- Hl in Hincl1.
    destruct a as [w|w|r|r]; cbn [well_formed next_connections] in Hwf, Hc.
    + assert (H1 : forall x, In x (connections app1) <-> In x open).
      { intros x. rewrite Hc. apply Hopen. }
      specialize (IH app1 seen open Hnd1 H1 Hseen Hincl1 Hwf).
      destruct (run c rest app1) as [app2 t2]. rewrite IH, Hc. reflexivity.
    + assert (H1 : forall x, In x (connections app1) <-> In x open).
      { intros x. rewrite Hc. apply Hopen. }
      specialize (IH app1 seen open Hnd1 H1 Hseen Hincl1 Hwf).
      destruct (run c rest app1) as [app2 t2]. rewrite IH, Hc. reflexivity.
    + destruct Hwf as [Hfresh Hwf].
      assert (Hnin : ~ In r (connections app)).
      { intros Hin. apply Hfresh, Hseen, Hopen. exact Hin. }
      assert (H1 : forall x, In x (connections app1) <-> In x (r :: open)).
      { intros x. rewrite Hc, In_set_add. cbn. rewrite Hopen.
        split; (intros [H | H]; [left; congruence | right; exact H]). }
      assert (H2 : incl (r :: open) (r :: seen)).
      { intros x [-> | Hx]; [left; reflexivity | right; auto]. }
      specialize (IH app1 (r :: seen) (r :: open) Hnd1 H1 H2 Hincl1 Hwf).
      destruct (run c rest app1) as [app2 t2].
      rewrite IH, Hc, (set_add_fresh r _ Hnin), filter_app.
      cbn [open_in_order List.filter]. rewrite <- app_assoc.
      destruct (no_finish r rest); reflexivity.
    + destruct Hwf as [Hin Hwf].
      assert (Hconn : In r (connections app)) by (apply Hopen; exact Hin).
      assert (Hls : existsb (Nat.eqb r) (finish_listeners app) = true).
      { apply existsb_eqb_In. apply Hincl. exact Hconn. }
      rewrite Hls in Hc.
      assert (H1 : forall x, In x (connections app1)
                             <-> In x (List.remove Nat.eq_dec r open)).
      { intros x. rewrite Hc, In_set_delete, Hopen. split.
        - intros [Hx Hne]. apply in_in_remove; [congruence | exact Hx].
        - intros Hx. apply in_remove in Hx. destruct Hx as [Hx Hne].
          split; [exact Hx | congruence]. }
      assert (H2 : incl (List.remove Nat.eq_dec r open) seen).
      { intros x Hx. apply in_remove in Hx. apply Hseen. tauto. }
      specialize (IH app1 seen _ Hnd1 H1 H2 Hincl1 Hwf).
      destruct (run c rest app1) as [app2 t2].
      rewrite IH, Hc, filter_after_delete. reflexivity.
Qed.

(** X6. The connection set keeps the order of arrival: when every
    request has a response handle of its own and finishes at most once,
    the set of a new instance lists, after any sequence of [start],
    [stop], request starts and request finishes, the open requests in
    the order in which they started. This is the order in which [stop]
    ends them. *)
Theorem connections_keep_arrival_order (c : config) (acts : list action) :
  well_formed [] [] acts ->
  connections (fst (run c acts new_application)) = open_in_order acts.
Proof.
  intros Hwf.
  assert (Hincl : incl (connections new_application)
                       (finish_listeners new_application)).
  { intros x []. }
  pose proof (run_order c acts new_application [] [] (NoDup_nil _)
                (fun r => iff_refl _) (incl_refl _) Hincl Hwf) as H.
  destruct (run c acts new_application) as [app' tr]. exact H.
Qed.

Lemma connections_keep_arrival_order_witness :
  connections
    (fst (run Samples.prod_config
            [RequestStart 1; RequestStart 2; RequestFinish 1; RequestStart 3]
            new_application))
  = [2; 3].
Proof.
  apply (connections_keep_arrival_order Samples.prod_config
           [RequestStart 1; RequestStart 2; RequestFinish 1; RequestStart 3]).
  cbn. intuition discriminate.
Defined.

End HistoryFacts.

(** ** The origin predicate at its edges *)

Module OriginFacts.
Import JS Regex Config Cors Http BodyParser Pipeline Routes.
Import JSFacts PipelineFacts.

Lemma trimStart_blank (a : jsstring) :
  forallb is_js_whitespace a = true -> trimStart a = [].
Proof.
  induction a as [|ch a IH]; [reflexivity|]. cbn [forallb trimStart].
  intros H. apply andb_true_iff in H. destruct H as [Hc Ha].
  rewrite Hc. exact (IH Ha).
Qed.

Lemma trimStart_padding (a b : jsstring) :
  forallb is_js_whitespace a = true -> trimStart (a ++ b) = trimStart b.
Proof.
  induction a as [|ch a IH]; [reflexivity|]. cbn [forallb List.app trimStart].
  intros H. apply andb_true_iff in H. destruct H as [Hc Ha].
  rewrite Hc. exact (IH Ha).
Qed.

Lemma trimStart_keeps_tail (a b : jsstring) :
  forallb is_js_whitespace a = false -> trimStart (a ++ b) = trimStart a ++ b.
Proof.
  induction a as [|ch a IH]; [discriminate|]. cbn [forallb List.app trimStart].
  destruct (is_js_whitespace ch); [exact IH | reflexivity].
Qed.

Lemma forallb_rev {A : Type} (f : A -> bool) (l : list A) :
  forallb f (rev l) = forallb f l.
Proof.
  induction l as [|x l IH]; [reflexivity|].
  cbn [rev forallb]. rewrite forallb_app, IH. cbn [forallb].
  rewrite andb_true_r. apply andb_comm.
Qed.

Lemma trimEnd_padding (a b : jsstring) :
  forallb is_js_whitespace b = true -> trimEnd (a ++ b) = trimEnd a.
Proof.
  intros H. unfold trimEnd. rewrite rev_app_distr, trimStart_padding;
    [reflexivity | rewrite forallb_rev; exact H].
Qed.

Lemma trim_blank (a : jsstring) :
  forallb is_js_whitespace a = true -> trim a = [].
Proof. intros H. unfold trim. rewrite (trimStart_blank a H). reflexivity. Qed.

(** [trim] sees only what is between the white space. *)
Lemma trim_padding (before o after : jsstring) :
  forallb is_js_whitespace before = true ->
  forallb is_js_whitespace after = true ->
  trim (before ++ o ++ after) = trim o.
Proof.
  intros Hb Ha. unfold trim. rewrite (trimStart_padding before _ Hb).
  destruct (forallb is_js_whitespace o) eqn:Ho.
  - rewrite (trimStart_padding o after Ho), (trimStart_blank after Ha),
      (trimStart_blank o Ho). reflexivity.
  - rewrite (trimStart_keeps_tail o after Ho). apply trimEnd_padding. exact Ha.
Qed.

Lemma truthy_padded (before o after : jsstring) :
  o <> [] -> truthy_string (before ++ o ++ after) = true.
Proof.
  intros Ho. destruct before; [|reflexivity].
  destruct o; [contradiction | reflexivity].
Qed.

(** X7. White space around the [Origin] header does not change the
    verdict: an origin with white space before and after it is allowed
    exactly when the origin itself is. *)
Theorem origin_padding_is_ignored
  (c : config) (before o after : jsstring) :
  o <> [] ->
  forallb is_js_whitespace before = true ->
  forallb is_js_whitespace after = true ->
  origin_callback c (Some (before ++ o ++ after)) = origin_callback c (Some o).
Proof.
  intros Ho Hb Ha. unfold origin_callback. cbn [truthy_opt_string].
  rewrite (truthy_padded before o after Ho), (trim_padding before o after Hb Ha).
  destruct o; [contradiction | reflexivity].
Qed.

Lemma origin_padding_is_ignored_witness :
  origin_callback Samples.dev_config
                  (Some (js "  " ++ js "https://app.example.com" ++ js " "))
  = origin_callback Samples.dev_config (Some (js "https://app.example.com")).
Proof.
  apply (origin_padding_is_ignored Samples.dev_config
           (js "  ") (js "https://app.example.com") (js " ")).
  - discriminate.
  - reflexivity.
  - reflexivity.
Defined.

(** X8. An [Origin] header that holds only white space is not taken for
    a missing one: it is checked like any origin, trimmed to the empty
    string, and allowed only when a configured origin is blank too. *)
Theorem blank_origin_is_not_absent (c : config) (o : jsstring) :
  o <> [] ->
  forallb is_js_whitespace o = true ->
  (origin_callback c (Some o) = Allowed
   <-> exists a, In a (allowedOrigins (origins (cors (security c))))
                 /\ trim a = [])
  /\ (origin_callback c (Some o) <> Allowed
      -> origin_callback c (Some o) = Failed (js "Not allowed by CORS")).
Proof.
  intros Ho Hblank. unfold origin_callback. cbn [truthy_opt_string].
  destruct o as [|ch o']; [contradiction|]. cbn [truthy_string negb].
  rewrite (trim_blank (ch :: o') Hblank).
  assert (Hlocal : isLocalhost [] = false) by reflexivity.
  rewrite Hlocal, andb_false_r.
  destruct (includes (trimmedAllowedOrigins (origins (cors (security c)))) [])
    eqn:Hinc.
  - split; [|intros H; contradiction]. split; [intros _|reflexivity].
    apply includes_In in Hinc. unfold trimmedAllowedOrigins in Hinc.
    apply in_map_iff in Hinc. destruct Hinc as (a & Ha & Hin).
    exists a. auto.
  - split; [|reflexivity]. split; [discriminate|].
    intros (a & Hin & Ha). exfalso.
    assert (Htrue : includes (trimmedAllowedOrigins (origins (cors (security c)))) []
                    = true).
    { apply includes_In. unfold trimmedAllowedOrigins. rewrite <- Ha.
      apply in_map. exact Hin. }
    rewrite Htrue in Hinc. discriminate.
Qed.

Lemma blank_origin_is_not_absent_witness :
  origin_callback Samples.dev_config (Some (js " "))
  = Failed (js "Not allowed by CORS")
  /\ origin_callback Samples.dev_config (Some []) = Allowed.
Proof.
  split; [|reflexivity].
  destruct (blank_origin_is_not_absent Samples.dev_config (js " ")) as [Hiff Hfail].
  - discriminate.
  - reflexivity.
  - apply Hfail. intros Hallowed. apply Hiff in Hallowed.
    destruct Hallowed as (a & Hin & Ha).
    destruct Hin as [<- | [<- | []]]; discriminate.
Defined.

Lemma origin_callback_verdicts (c : config) (o : option jsstring) :
  origin_callback c o = Allowed
  \/ origin_callback c o = Failed (js "Not allowed by CORS").
Proof.
  unfold origin_callback.
  destruct (negb (truthy_opt_string o)); [left; reflexivity|].
  destruct o as [s|]; [|left; reflexivity].
  destruct (includes _ _); [left; reflexivity|].
  destruct (is_development c && isLocalhost (trim s)); [left | right]; reflexivity.
Qed.

(** X9. With CORS enabled, a request whose origin the predicate does
    not allow never gets past the CORS stage: Express hands the plain
    [Error] with message [Not allowed by CORS] to the error handler, and
    the request arrives there as it came in, its body unread. *)
Theorem refused_origin_is_rejected_unread
  (x : express) (c : config) (p : runtime) (req : request) :
  cors_enabled (cors (security c)) = true ->
  foreign x (Helmet (is_production c)) req = Pass ->
  origin_callback c (origin req) <> Allowed ->
  dispatch x c p (served_stack c) None req
  = ToErrorHandler (Error (js "Not allowed by CORS")) req.
Proof.
  intros Hcors Hhelmet Hrefused.
  destruct (origin_callback_verdicts c (origin req)) as [H | H];
    [contradiction|].
  apply refused_origin_fails_the_request; assumption.
Qed.

Lemma refused_origin_is_rejected_unread_witness :
  dispatch Samples.plain_express Samples.dev_config (Samples.a_runtime true)
           (served_stack Samples.dev_config) None MoreSamples.cross_site_post
  = ToErrorHandler (Error (js "Not allowed by CORS")) MoreSamples.cross_site_post.
Proof.
  apply (refused_origin_is_rejected_unread
           Samples.plain_express Samples.dev_config (Samples.a_runtime true)
           MoreSamples.cross_site_post).
  - reflexivity.
  - reflexivity.
  - vm_compute. discriminate.
Defined.

End OriginFacts.

(** ** The route table as a whole *)

Module RoutingFacts.
Import JS Config Cors Http BodyParser Pipeline Routes PipelineOrder.
Import RoutesFacts.

Lemma verify_before_health (c : config) (l : limit_setting) (v : verify_callback) :
  In (JsonBody l (Some v)) (before_health c) -> v = capture_raw_body.
Proof.
  unfold before_health, middleware_stages, middleware_plan.
  intros H. stage_cases H; inversion H; reflexivity.
Qed.

(** X10. The utility routes are registered with [app.get]: a request
    with another method than GET or HEAD that reaches them is served by
    none of them, whatever its path, [/health] and [/] included; the
    catch-all turns it into the 404 [AppError] for the URL it was made
    for. *)
Theorem other_methods_are_not_found
  (x : express) (c : config) (p : runtime) (req req' : request) :
  falls_through x c p (before_health c) req = Some req' ->
  is_get req' = false ->
  dispatch x c p (served_stack c) None req
  = ToErrorHandler
      (AppError (js "Can't find " ++ originalUrl req ++ js " on this server!") 404)
      req'.
Proof.
  intros Hfall Hget.
  rewrite served_stack_at_health, (dispatch_after x c p _ _ req req' Hfall).
  rewrite <- (falls_through_keeps_url x c p _ req req' (verify_before_health c) Hfall).
  destruct (is_development c);
    cbn [when List.app dispatch run_layer is_error_handler];
    repeat (unfold get_route; rewrite Hget;
            cbn [andb dispatch run_layer is_error_handler]);
    reflexivity.
Qed.

Lemma other_methods_are_not_found_witness :
  dispatch Samples.plain_express Samples.prod_config (Samples.a_runtime true)
           (served_stack Samples.prod_config) None
           (Samples.post "/health" MediaOther "")
  = ToErrorHandler
      (AppError (js "Can't find /health on this server!") 404)
      (set_body (Samples.post "/health" MediaOther "") EmptyObject).
Proof.
  apply (other_methods_are_not_found
           Samples.plain_express Samples.prod_config (Samples.a_runtime true)
           (Samples.post "/health" MediaOther "")
           (set_body (Samples.post "/health" MediaOther "") EmptyObject)).
  - vm_compute; reflexivity.
  - reflexivity.
Defined.

(** X11. The session-debug route exists in development only: in any
    other environment a GET that would match it, and that matches
    neither [/health], [/session-check] nor [/], ends at the catch-all
    as a 404 for its URL. *)
Theorem session_debug_is_development_only
  (x : express) (c : config) (p : runtime) (req req' : request) :
  is_development c = false ->
  falls_through x c p (before_health c) req = Some req' ->
  route_match x (js "/session-debug") (path req') = true ->
  route_match x (js "/health") (path req') = false ->
  route_match x (js "/session-check") (path req') = false ->
  route_match x (js "/") (path req') = false ->
  ~ In SessionDebugRoute (served_stack c)
  /\ dispatch x c p (served_stack c) None req
     = ToErrorHandler
         (AppError (js "Can't find " ++ originalUrl req ++ js " on this server!") 404)
         req'.
Proof.
  intros Hdev Hfall _ Hhealth Hcheck Hroot. split.
  - unfold served_stack, middleware_stages, middleware_plan, route_stages,
      routes_plan, error_plan.
    rewrite Hdev. intros H. stage_cases H; discriminate.
  - rewrite served_stack_at_health, (dispatch_after x c p _ _ req req' Hfall).
    rewrite <- (falls_through_keeps_url x c p _ req req'
                  (verify_before_health c) Hfall).
    rewrite Hdev.
    cbn [when List.app dispatch run_layer is_error_handler].
    repeat (unfold get_route;
            first [rewrite Hhealth | rewrite Hcheck | rewrite Hroot];
            rewrite ?andb_false_r;
            cbn [dispatch run_layer is_error_handler]).
    reflexivity.
Qed.

Lemma session_debug_is_development_only_witness :
  dispatch Samples.plain_express Samples.prod_config (Samples.a_runtime true)
           (served_stack Samples.prod_config) None (Samples.get "/session-debug")
  = ToErrorHandler
      (AppError (js "Can't find /session-debug on this server!") 404)
      (set_body (Samples.get "/session-debug") EmptyObject).
Proof.
  apply (session_debug_is_development_only
           Samples.plain_express Samples.prod_config (Samples.a_runtime true)
           (Samples.get "/session-debug")
           (set_body (Samples.get "/session-debug") EmptyObject)).
  - reflexivity.
  - vm_compute; reflexivity.
  - reflexivity.
  - reflexivity.
  - reflexivity.
  - reflexivity.
Defined.

(** X12. The root route advertises the API where it is mounted: the
    [endpoints.api] field of its answer is the mount path of the API
    router in the served stack, the only one there, and that path is
    [<prefix>/<version>], where the prefix is the configured
    [apiPrefix], or [/api] when it is missing or empty, and the version
    the configured [apiVersion], or [v1] when it is missing or empty. *)
Theorem root_advertises_the_api_mount (c : config) (p : runtime) (req : request) :
  exists b,
    json (root c p req) = RootBody b
    /\ In (ApiRouter (endpoint_api (root_endpoints b)) api_resources)
          (served_stack c)
    /\ (forall mount resources,
           In (ApiRouter mount resources) (served_stack c) ->
           mount = endpoint_api (root_endpoints b))
    /\ (forall prefix version,
           setting_or (apiPrefix (app c)) (js "/api") prefix ->
           setting_or (apiVersion (app c)) (js "v1") version ->
           endpoint_api (root_endpoints b) = prefix ++ js "/" ++ version
           /\ In (ApiRouter (prefix ++ js "/" ++ version) api_resources)
                 (served_stack c)).
Proof.
  assert (Hin : In (ApiRouter (api_mount c) api_resources) (served_stack c)).
  { rewrite served_stack_at_health. unfold before_health.
    apply in_or_app. left. apply in_or_app. right. right. right. left.
    reflexivity. }
  assert (Hor : forall setting default value,
             setting_or setting default value ->
             or_default setting default = value).
  { intros setting default value [(text & -> & Hne & ->) | [[-> | ->] ->]];
      try reflexivity.
    destruct text; [contradiction | reflexivity]. }
  eexists. split; [reflexivity|]. cbn [root_endpoints endpoint_api].
  split; [exact Hin|]. split.
  - intros mount resources H.
    unfold served_stack, middleware_stages, middleware_plan, route_stages,
      routes_plan, error_plan in H.
    stage_cases H; inversion H; reflexivity.
  - intros prefix version Hp Hv.
    assert (Hmount : api_mount c = prefix ++ js "/" ++ version).
    { unfold api_mount, apiPrefix_of, apiVersion_of.
      rewrite (Hor _ _ _ Hp), (Hor _ _ _ Hv). reflexivity. }
    rewrite <- Hmount. split; [reflexivity | exact Hin].
Qed.

Lemma root_advertises_the_api_mount_witness :
  exists b,
    json (root Samples.prod_config (Samples.a_runtime true) (Samples.get "/"))
    = RootBody b
    /\ endpoint_api (root_endpoints b) = js "/api/v2"
    /\ In (ApiRouter (js "/api/v2") api_resources)
          (served_stack Samples.prod_config).
Proof.
  destruct (root_advertises_the_api_mount
              Samples.prod_config (Samples.a_runtime true) (Samples.get "/"))
    as (b & Hjson & _ & _ & Hpath).
  destruct (Hpath (js "/api") (js "v2")) as [Hapi Hin].
  - right. split; [left; reflexivity | reflexivity].
  - left. exists (js "v2"). repeat split. discriminate.
  - exists b. split; [exact Hjson|]. split; [exact Hapi | exact Hin].
Defined.

End RoutingFacts.

(** ** The pipeline under every configuration *)

Module ConfigurationFacts.
Import JS Config Cors Http BodyParser Pipeline Effects Lifecycle Routes.
Import Installation PipelineOrder.
Import JSFacts LifecycleFacts RoutesFacts PipelineFacts.
Local Open Scope effect_scope.

Ltac find_in :=
  solve [ apply in_eq
        | apply in_cons; find_in
        | apply in_or_app; left; find_in
        | apply in_or_app; right; find_in ].

Lemma proxy_emit (ev : event) : proxy_after false (emit ev).
Proof. intros app. cbn. rewrite orb_false_r. reflexivity. Qed.

Lemma proxy_call (ev : event) (fails : option js_error) :
  proxy_after false (call ev fails).
Proof.
  intros app. unfold call. destruct fails; cbn; rewrite orb_false_r; reflexivity.
Qed.

Lemma proxy_ret : proxy_after false (ret tt).
Proof. intros app. cbn. rewrite orb_false_r. reflexivity. Qed.

Lemma proxy_throw (e : js_error) : proxy_after false (throw e).
Proof. intros app. cbn. rewrite orb_false_r. reflexivity. Qed.

Lemma proxy_push (s : stage) : proxy_after false (modify (push_stage s)).
Proof. intros app. cbn. rewrite orb_false_r. reflexivity. Qed.

Lemma proxy_bind (b : bool) (m1 : M unit) (k : unit -> M unit) :
  proxy_after b m1 -> (forall u, proxy_after false (k u)) ->
  proxy_after b (bind m1 k).
Proof.
  intros H1 H2 app. unfold bind. specialize (H1 app).
  destruct (m1 app) as [[[u|e] app1] t1]; [|exact H1].
  specialize (H2 u app1). destruct (k u app1) as [[o app2] t2].
  rewrite H2, H1, orb_false_r. reflexivity.
Qed.

Lemma proxy_try_catch (b : bool) (m : M unit) (h : js_error -> M unit) :
  proxy_after b m -> (forall e, proxy_after false (h e)) ->
  proxy_after b (try_catch m h).
Proof.
  intros H1 H2 app. unfold try_catch. specialize (H1 app).
  destruct (m app) as [[[u|e] app1] t1]; [exact H1|].
  specialize (H2 e app1). destruct (h e app1) as [[o app2] t2].
  rewrite H2, H1, orb_false_r. reflexivity.
Qed.

Lemma proxy_rethrow (message : string) (e : js_error) :
  proxy_after false (log_error message e ;; throw e).
Proof. apply proxy_bind; [apply proxy_emit | intros _; apply proxy_throw]. Qed.

Lemma proxy_app_use (w : world) (s : stage) : proxy_after false (app_use w s).
Proof.
  unfold app_use. destruct (build_fails w s); [apply proxy_throw|].
  apply proxy_bind; [apply proxy_emit | intros _; apply proxy_push].
Qed.

Lemma proxy_run_plan (w : world) (p : list step) :
  existsb is_trust_step p = false -> proxy_after false (run_plan w p).
Proof.
  induction p as [|st p IH]; cbn [run_plan existsb]; intros H; [apply proxy_ret|].
  apply orb_false_iff in H. destruct H as [Hst Hp].
  apply proxy_bind; [|intros _; exact (IH Hp)].
  destruct st as [s| |l m]; [apply proxy_app_use | discriminate | apply proxy_emit].
Qed.

Lemma proxy_setupMiddleware (c : config) (w : world) :
  proxy_after (is_production c) (setupMiddleware c w).
Proof.
  unfold setupMiddleware, middleware_plan.
  assert (Htail : forall tail,
             existsb is_trust_step tail = false ->
             proxy_after (is_production c)
               (run_plan w (when (is_production c) [TrustProxy] ++ tail))).
  { intros tail Htail. destruct (is_production c); cbn [when List.app run_plan run_step].
    - apply proxy_bind; [|intros _; apply proxy_run_plan; exact Htail].
      intros app. cbn. rewrite orb_true_r. reflexivity.
    - apply proxy_run_plan. exact Htail. }
  apply Htail. unfold when.
  destruct (is_production c), (helmet_enabled (security c)),
    (cors_enabled (cors (security c))), (sanitize_enabled (security c)),
    (logging_enabled c), (is_development c);
    destruct (idleTimeout (session c)) as [ms|];
    try destruct (truthy_number ms); reflexivity.
Qed.

Lemma proxy_initialize (c : config) (w : world) :
  proxy_after (is_production c) (initialize c w).
Proof.
  unfold initialize. apply proxy_bind; [apply proxy_setupMiddleware|]. intros _.
  apply proxy_bind; [|intros _; apply proxy_bind].
  - unfold setupPassport. apply proxy_bind; [|intros _; apply proxy_app_use].
    apply proxy_try_catch; [|intros e; apply proxy_rethrow].
    apply proxy_bind; [|intros _; apply proxy_emit].
    unfold passport_initialize.
    apply proxy_bind; [apply proxy_call|]. intros _.
    apply proxy_bind; [apply proxy_emit | intros _; apply proxy_push].
  - unfold setupRoutes, routes_plan, when. apply proxy_run_plan.
    destruct (is_development c); reflexivity.
  - intros _. unfold setupErrorHandling. apply proxy_run_plan. reflexivity.
Qed.

Lemma static_or_session_in_stack (c : config) (s : stage) :
  In s (served_stack c) ->
  match s with
  | SessionMw useDatabase secure =>
      secure = is_production c
      /\ useDatabase = jsstring_eqb (store (session c)) (js "mongodb")
  | Static _ _ maxAge => maxAge <> None <-> is_production c = true
  | _ => True
  end.
Proof.
  unfold served_stack, middleware_stages, middleware_plan, route_stages,
    routes_plan, error_plan.
  intros H. stage_cases H; subst s; try exact I; try (split; reflexivity).
  all: destruct (is_production c); split; congruence.
Qed.

(** X13. What production switches on. The session stage is always
    installed, with secure cookies exactly in production and the
    database store exactly when the configured store is [mongodb]; the
    static mounts cache ([maxAge] set) exactly in production; and a
    [start] whose datastore connection succeeds leaves [trust proxy] on
    exactly when it was on before or the environment is production,
    whether the rest of [start] succeeds or not. Development and
    production exclude each other. *)
Theorem production_switches (c : config) :
  In (SessionMw (jsstring_eqb (store (session c)) (js "mongodb")) (is_production c))
     (served_stack c)
  /\ (forall useDatabase secure,
         In (SessionMw useDatabase secure) (served_stack c) ->
         secure = is_production c
         /\ (useDatabase = true <-> store (session c) = js "mongodb"))
  /\ (forall mount dir maxAge,
         In (Static mount dir maxAge) (served_stack c) ->
         (maxAge <> None <-> is_production c = true))
  /\ (forall w app,
         connect_fails w = None ->
         trust_proxy (snd (fst (start c w app)))
         = trust_proxy app || is_production c)
  /\ (is_production c = true -> is_development c = false).
Proof.
  split; [|split; [|split; [|split]]].
  - unfold served_stack, middleware_stages, middleware_plan.
    rewrite !stages_of_app. cbn [stages_of]. find_in.
  - intros useDatabase secure H.
    destruct (static_or_session_in_stack c _ H) as [-> ->].
    split; [reflexivity | apply jsstring_eqb_eq].
  - intros mount dir maxAge H. exact (static_or_session_in_stack c _ H).
  - intros w app Hconnect.
    assert (H : proxy_after (is_production c) (start c w)).
    { unfold start. apply proxy_try_catch; [|intros e; apply proxy_rethrow].
      assert (Hbody : proxy_after (is_production c)
                        (log info "Database connected successfully" ;;
                         initialize c w ;;
                         log info "Application initialized successfully")).
      { intros app0. unfold bind at 1. cbn [log emit].
        pose proof (proxy_bind (is_production c) (initialize c w)
                      (fun _ => log info "Application initialized successfully")
                      (proxy_initialize c w) (fun _ => proxy_emit _) app0) as Hi.
        cbn [log] in Hi.
        destruct (bind (initialize c w) _ app0) as [[o app1] t1]. exact Hi. }
      intros app0. unfold bind at 1. unfold call. rewrite Hconnect.
      specialize (Hbody app0).
      destruct ((log info "Database connected successfully" ;;
                 initialize c w ;;
                 log info "Application initialized successfully") app0)
        as [[o app1] t1].
      exact Hbody. }
    specialize (H app). destruct (start c w app) as [[o app'] tr]. exact H.
  - unfold is_production, is_development. intros H.
    apply jsstring_eqb_eq in H. rewrite H. reflexivity.
Qed.

Lemma production_switches_witness :
  trust_proxy (snd (fst (start Samples.prod_config Samples.close_breaks
                           new_application))) = true.
Proof.
  destruct (production_switches Samples.prod_config) as (_ & _ & _ & H & _).
  rewrite (H Samples.close_breaks new_application eq_refl). reflexivity.
Defined.

(** X14. The configuration removes stages from the pipeline but never
    reorders or repeats them: under every configuration the stages
    [setupMiddleware] installs come in the order of the source text
    (security headers, CORS, JSON and form body parsers, sanitizer,
    cookies, compression, the [_method] and then the
    [X-HTTP-Method-Override] method override, the [/uploads] and then
    the [/public] static mount, request logger, [morgan], session,
    flash, flash locals, session security, session activity, idle
    timeout), each at most once, and connection tracking is the last of
    them. *)
Theorem middleware_order_is_fixed (c : config) :
  increasing 0 (List.map position (middleware_stages c)) = true
  /\ exists earlier, middleware_stages c = earlier ++ [TrackConnections].
Proof.
  split.
  - unfold middleware_stages, middleware_plan, when.
    destruct (is_production c), (helmet_enabled (security c)),
      (cors_enabled (cors (security c))), (sanitize_enabled (security c)),
      (logging_enabled c), (is_development c);
      destruct (idleTimeout (session c)) as [ms|];
      try destruct (truthy_number ms); reflexivity.
  - unfold middleware_stages, middleware_plan.
    rewrite !app_assoc, stages_of_app. eexists. reflexivity.
Qed.

Lemma before_body_is_first (c : config) :
  exists rest,
    served_stack c
    = before_body c
      ++ JsonBody (upload_limit c) (Some capture_raw_body) :: rest
    /\ existsb is_error_handler rest = true.
Proof.
  unfold served_stack, middleware_stages, middleware_plan, before_body.
  rewrite !stages_of_app.
  assert (Hprod : stages_of (when (is_production c) [TrustProxy]) = [])
    by (destruct (is_production c); reflexivity).
  rewrite Hprod. cbn [List.app].
  destruct (helmet_enabled (security c)), (cors_enabled (cors (security c)));
    cbn [when stages_of List.app]; eexists;
    (split; [reflexivity|]);
    apply existsb_exists; exists ErrorHandler; (split; [find_in | reflexivity]).
Qed.

(** X15. A JSON body over the configured ceiling is refused before it
    is looked at: when such a request reaches the JSON stage, Express
    hands the error 413 [entity.too.large] to the error handler, the
    raw-body capture has not run ([rawBody] is as it was), and no
    route has seen the request. *)
Theorem oversized_json_is_rejected
  (x : express) (c : config) (p : runtime) (req req' : request) :
  falls_through x c p (before_body c) req = Some req' ->
  body_read req' = false -> has_body req' = true -> content req' = MediaJson ->
  within (bytes_parse x) (upload_limit c) (stream req') = false ->
  exists r,
    dispatch x c p (served_stack c) None req
    = ToErrorHandler (HttpError 413 (js "entity.too.large")) r
    /\ rawBody r = rawBody req'.
Proof.
  intros Hfall Hread Hbody Hjson Hover.
  destruct (before_body_is_first c) as (rest & Hstack & Hrest).
  destruct (oversized_body_is_refused x c p req' Hread Hbody Hjson Hover)
    as (r & Hlayer & Hraw).
  exists r. split; [|exact Hraw].
  rewrite Hstack, (dispatch_after x c p _ _ req req' Hfall), dispatch_step.
  cbn [is_error_handler]. rewrite Hlayer. apply dispatch_pending. exact Hrest.
Qed.

Lemma oversized_json_is_rejected_witness :
  exists r,
    dispatch Samples.plain_express Samples.prod_config (Samples.a_runtime true)
             (served_stack Samples.prod_config) None MoreSamples.large_post
    = ToErrorHandler (HttpError 413 (js "entity.too.large")) r
    /\ rawBody r = None.
Proof.
  apply (oversized_json_is_rejected
           Samples.plain_express Samples.prod_config (Samples.a_runtime true)
           MoreSamples.large_post MoreSamples.large_post).
  - reflexivity.
  - reflexivity.
  - reflexivity.
  - reflexivity.
  - vm_compute. reflexivity.
Defined.

Lemma upload_limit_is_set (c : config) :
  upload_limit c <> LimitBytes 0 /\ upload_limit c <> LimitText [].
Proof.
  unfold upload_limit. destruct (uploadLimit (app c)) as [[n|t]|].
  - destruct (n =? 0)%N eqn:E; split; try discriminate.
    intros H. inversion H. subst n. discriminate.
  - destruct t; split; discriminate.
  - split; discriminate.
Qed.

(** X16. The two body parsers always get the same ceiling, and a falsy
    setting does not switch it off or close the door: an upload limit
    of [0], an empty one and a missing one all mean [10mb], so the
    ceiling handed to the parsers is never the number 0 nor the empty
    text. *)
Theorem body_parsers_share_the_ceiling (c : config) :
  (forall l verify l',
      In (JsonBody l verify) (served_stack c) ->
      In (UrlencodedBody l') (served_stack c) ->
      l = upload_limit c /\ l' = upload_limit c)
  /\ upload_limit c <> LimitBytes 0
  /\ upload_limit c <> LimitText []
  /\ (uploadLimit (app c) = None
      \/ uploadLimit (app c) = Some (LimitBytes 0)
      \/ uploadLimit (app c) = Some (LimitText []) ->
      upload_limit c = LimitText (js "10mb")).
Proof.
  split; [|split; [apply upload_limit_is_set
                  |split; [apply upload_limit_is_set|]]].
  - intros l verify l' Hj Hu.
    unfold served_stack, middleware_stages, middleware_plan, route_stages,
      routes_plan, error_plan in Hj, Hu.
    split.
    + clear Hu. stage_cases Hj; inversion Hj; reflexivity.
    + clear Hj. stage_cases Hu; inversion Hu; reflexivity.
  - unfold upload_limit. intros [-> | [-> | ->]]; reflexivity.
Qed.

End ConfigurationFacts.

(** ** The idle timeout on the started instance *)

Module IdleFacts.
Import JS Config Http Pipeline Effects Lifecycle Routes Installation Sessions.
Import LifecycleFacts RoutesFacts PipelineFacts StartFacts.

Lemma idle_stage_in_served_stack (c : config) (m : float) :
  In (IdleSessionTimeout m) (served_stack c) <->
  In (IdleSessionTimeout m) (middleware_stages c).
Proof.
  unfold served_stack. split.
  - intros H. apply in_app_or in H. destruct H as [H | H]; [exact H|].
    exfalso. unfold route_stages, routes_plan, error_plan in H.
    stage_cases H; discriminate.
  - intros H. apply in_or_app. left. exact H.
Qed.

(** What [start] leaves on a new instance is a part of the served
    stack, and the whole of it when [start] returns. *)
Lemma started_stack (c : config) (w : world) :
  match start c w new_application with
  | (o, app, _) =>
      incl (stack app) (served_stack c)
      /\ (o = Returned tt -> stack app = served_stack c)
  end.
Proof.
  pose proof (installs_start c w new_application) as H.
  destruct (start c w new_application) as [[[u|e] app] tr].
  - cbn in H. rewrite H. split; [apply incl_refl | reflexivity].
  - destruct H as (done & rest & Hsplit & _ & Hstack). cbn in Hstack.
    rewrite Hstack, Hsplit. split; [|discriminate].
    apply incl_appl, incl_refl.
Qed.

Lemma no_idle_stage_no_invalidation (layers : list stage) :
  (forall m, ~ In (IdleSessionTimeout m) layers) ->
  forall idle, invalidated_for_inactivity layers idle = false.
Proof.
  intros Hnone idle. unfold invalidated_for_inactivity.
  destruct (existsb _ layers) eqn:E; [|reflexivity].
  apply existsb_exists in E. destruct E as (s & Hin & Hs).
  destruct s; try discriminate. exfalso. exact (Hnone _ Hin).
Qed.

(** C9. On the instance a [start] leaves behind, whether it returned or
    threw: when the session idle timeout is absent or zero, the stack
    holds no idle-session-timeout stage, so no layer of it invalidates a
    session for inactivity, however long the session has been idle;
    when the timeout is a positive number of milliseconds, the only
    idle-session-timeout stage the stack can hold has that number
    divided by 60000 as its threshold in minutes, and the stack of an
    instance whose [start] returned holds it. *)
Theorem idle_timeout_stage (c : config) (w : world) :
  match start c w new_application with
  | (o, app, _) =>
      ((idleTimeout (session c) = None
        \/ exists ms, idleTimeout (session c) = Some ms
                      /\ (ms =? 0)%float = true) ->
       (forall m, ~ In (IdleSessionTimeout m) (stack app))
       /\ forall idle, invalidated_for_inactivity (stack app) idle = false)
      /\ (forall ms,
             idleTimeout (session c) = Some ms -> (0 <? ms)%float = true ->
             (forall m, In (IdleSessionTimeout m) (stack app) ->
                        m = (ms / 60000)%float)
             /\ (o = Returned tt ->
                 In (IdleSessionTimeout (ms / 60000)%float) (stack app)
                 /\ forall idle,
                      invalidated_for_inactivity (stack app) idle
                      = (ms / 60000 <? idle)%float))
  end.
Proof.
  pose proof (started_stack c w) as H.
  destruct (start c w new_application) as [[o app] tr].
  destruct H as [Hincl Hall].
  assert (Hidle : forall m, In (IdleSessionTimeout m) (stack app) ->
                    exists ms, idleTimeout (session c) = Some ms
                               /\ truthy_number ms = true
                               /\ m = (ms / 60000)%float).
  { intros m Hin. apply idle_stage_in_pipeline, idle_stage_in_served_stack.
    apply Hincl. exact Hin. }
  split.
  - intros Hoff.
    assert (Hnone : forall m, ~ In (IdleSessionTimeout m) (stack app)).
    { intros m Hin. destruct (Hidle m Hin) as (ms & Hms & Ht & _).
      destruct Hoff as [Hoff | (ms' & Hms' & Hzero)]; [congruence|].
      rewrite Hms in Hms'. inversion Hms'; subst ms'.
      rewrite (zero_is_falsy ms Hzero) in Ht. discriminate. }
    split; [exact Hnone | apply no_idle_stage_no_invalidation; exact Hnone].
  - intros ms Hsome Hpos.
    assert (Honly : forall m, In (IdleSessionTimeout m) (stack app) ->
                      m = (ms / 60000)%float).
    { intros m Hin. destruct (Hidle m Hin) as (ms' & Hms & _ & ->). congruence. }
    split; [exact Honly|].
    intros Ho.
    assert (Hthere : In (IdleSessionTimeout (ms / 60000)%float) (stack app)).
    { rewrite (Hall Ho). apply idle_stage_in_served_stack, idle_stage_in_pipeline.
      exists ms. split; [exact Hsome|].
      split; [apply positive_is_truthy; exact Hpos | reflexivity]. }
    split; [exact Hthere|].
    intros idle. unfold invalidated_for_inactivity.
    destruct (ms / 60000 <? idle)%float eqn:E.
    + apply existsb_exists. exists (IdleSessionTimeout (ms / 60000)%float).
      split; [exact Hthere | exact E].
    + destruct (existsb _ (stack app)) eqn:Ex; [|reflexivity].
      apply existsb_exists in Ex. destruct Ex as (s & Hin & Hs).
      destruct s; try discriminate.
      rewrite (Honly _ Hin) in Hs. cbn [invalidates_idle_session] in Hs.
      congruence.
Qed.

(** Thirty minutes, configured as 1800000 ms, on a started instance;
    and no stage for a timeout of zero, even when [start] fails at the
    end. *)
Lemma idle_timeout_stage_witness :
  In (IdleSessionTimeout 30%float)
     (stack (snd (fst (start Samples.dev_config calm new_application))))
  /\ invalidated_for_inactivity
       (stack (snd (fst (start Samples.dev_config calm new_application))))
       45%float = true
  /\ forall idle,
       invalidated_for_inactivity
         (stack (snd (fst (start Samples.prod_config calm new_application))))
         idle = false.
Proof.
  pose proof (idle_timeout_stage Samples.dev_config calm) as Hdev.
  pose proof (idle_timeout_stage Samples.prod_config calm) as Hprod.
  pose proof (start_calm Samples.dev_config new_application) as Hcalm.
  destruct (start Samples.dev_config calm new_application) as [[o app] tr].
  destruct (start Samples.prod_config calm new_application) as [[o' app'] tr'].
  cbn [fst snd].
  destruct Hcalm as [Ho _].
  destruct Hdev as [_ Hdev].
  destruct (Hdev 1800000%float eq_refl eq_refl) as [_ Hon].
  destruct (Hon Ho) as [Hin Hinv].
  destruct Hprod as [Hprod _].
  split; [exact Hin|]. split.
  - rewrite Hinv. reflexivity.
  - apply Hprod. right. exists 0%float. split; reflexivity.
Defined.

End IdleFacts.

(** ** The connection set and the requests in flight *)

Module ServingFacts.
Import JS Config Cors Http BodyParser Pipeline Effects Lifecycle Routes.
Import Installation Serving.
Import LifecycleFacts ShutdownFacts RoutesFacts PipelineFacts StartFacts.
Local Open Scope effect_scope.

Section Walk.
Variable x : express.
Variable c : config.
Variable p : runtime.








(** *** The view and the history *)








(** *** The response handle on the way through the stack *)





(** *** The stack of a living instance *)








End Walk.





End ServingFacts.
